(** * Message cache reconciliation of the chat widget

    A shallow embedding of the client-side cache logic of the chat widget:

    - [widgets/chat/lib/cache-utils.ts]: [upsertMessageInCache] and
      [removeTempMessagesByText];
    - the [messages] field policy of the Apollo cache ([merge]);
    - the two subscription hooks ([widgets/chat/hooks] and
      [widgets/chat/lib/hooks]), the send hook and the chat hook.

    JavaScript strings are [string]s, arrays are [list]s, optional values
    ([undefined], [null]) are [option]s and the [-1] of [findIndex] is
    [None].  The Apollo cache is the store of the [GET_MESSAGES] query: a
    cell read by [readQuery] and replaced by [writeQuery] (the message
    store of the design, with its [getPage] and [replacePage]); every
    [writeQuery] is recorded, so that "no write" can be told apart from
    "a write of the same data". *)

From Stdlib Require Import ZArith String Ascii List Bool Lia.
From stdpp Require Import base list strings.
From stdpp Require Import pretty.

Open Scope string_scope.
Open Scope Z_scope.
Open Scope list_scope.

(** ** Data model ([__generated__/resolvers-types.ts]) *)

Inductive MessageStatus : Type := Sending | Sent | Read.

Inductive MessageSender : Type := Admin | Customer.

Record Message : Type := mkMessage {
  message_typename : option string;
  id : string;
  text : string;
  status : MessageStatus;
  updatedAt : string;
  sender : MessageSender
}.

Record MessageEdge : Type := mkMessageEdge {
  edge_typename : option string;
  node : Message;
  cursor : string
}.

Record MessagePageInfo : Type := mkMessagePageInfo {
  pageInfo_typename : option string;
  hasNextPage : bool;
  hasPreviousPage : bool;
  startCursor : option string;
  endCursor : option string
}.

Record MessagePage : Type := mkMessagePage {
  page_typename : option string;
  edges : list MessageEdge;
  pageInfo : MessagePageInfo
}.

(** Object spreads of the source: [{ ...edge, node: n }] and
    [{ ...page, edges: es }]. *)
Definition with_node (edge : MessageEdge) (n : Message) : MessageEdge :=
  {| edge_typename := edge_typename edge; node := n; cursor := cursor edge |}.

Definition with_edges (page : MessagePage) (es : list MessageEdge) : MessagePage :=
  {| page_typename := page_typename page; edges := es; pageInfo := pageInfo page |}.

(** ** Built-ins of the JavaScript runtime

    [Date_getTime s] is the time value of [new Date(s)] in milliseconds,
    [None] for an invalid date (time value NaN).  [String_trim] is
    [String.prototype.trim].  Neither is code of this repository; the
    development is parametric in them. *)
Class Builtins : Type := {
  Date_getTime : string -> option Z;
  String_trim : string -> string
}.

Section WithBuiltins.
Context `{Builtins}.

(** [new Date(a) < new Date(b)]: a comparison with NaN is false. *)
Definition Date_lt (a b : string) : bool :=
  match Date_getTime a, Date_getTime b with
  | Some x, Some y => x <? y
  | _, _ => false
  end.

(** [new Date(a) >= new Date(b)]. *)
Definition Date_ge (a b : string) : bool :=
  match Date_getTime a, Date_getTime b with
  | Some x, Some y => y <=? x
  | _, _ => false
  end.

End WithBuiltins.

(** [!s] for a string: the empty string is the only falsy one. *)
Definition falsy (s : string) : bool := String.eqb s "".

(** Truthiness of an optional string ([args?.after]). *)
Definition truthy (s : option string) : bool :=
  match s with
  | Some v => negb (falsy v)
  | None => false
  end.

(** [Array.prototype.findIndex]; [None] stands for [-1]. *)
Fixpoint findIndex {A : Type} (p : A -> bool) (l : list A) : option nat :=
  match l with
  | [] => None
  | x :: l' => if p x then Some 0%nat else S <$> findIndex p l'
  end.

(** [Array.prototype.some]. *)
Definition some {A : Type} (p : A -> bool) (l : list A) : bool := existsb p l.

(** ** The Apollo cache, seen through [GET_MESSAGES] *)

Record ApolloCache : Type := mkCache {
  query_data : option MessagePage;
  write_log : list MessagePage
}.

Definition readQuery (cache : ApolloCache) : option MessagePage :=
  query_data cache.

Definition writeQuery (cache : ApolloCache) (data : MessagePage) : ApolloCache :=
  {| query_data := Some data; write_log := write_log cache ++ [data] |}.

(** ** [widgets/chat/lib/cache-utils.ts] *)

Definition isTemp (edge : MessageEdge) : bool :=
  String.prefix "temp-" (id (node edge)).

Definition newEdge (message : Message) : MessageEdge :=
  {| edge_typename := Some "MessageEdge";
     node := message;
     cursor := ("cursor_" ++ id message)%string |}.

Section CacheUtils.
Context `{Builtins}.

Definition upsertMessageInCache (cache : ApolloCache) (message : Message)
  : ApolloCache :=
  match readQuery cache with
  | None => cache
  | Some existingData =>
    let es := edges existingData in
    match findIndex (fun e => String.eqb (id (node e)) (id message)) es with
    | None =>
      writeQuery cache (with_edges existingData (es ++ [newEdge message]))
    | Some index =>
      match es !! index with
      | None => cache (* not reached: [findIndex] answers an index of [es] *)
      | Some edge =>
        let existing := node edge in
        if Date_lt (updatedAt message) (updatedAt existing)
        then cache (* ignore stale *)
        else writeQuery cache
               (with_edges existingData (<[index := with_node edge message]> es))
      end
    end
  end.

End CacheUtils.

Definition keepEdge (text_ : string) (edge : MessageEdge) : bool :=
  negb (isTemp edge && String.eqb (text (node edge)) text_).

Definition removeTempMessagesByText (cache : ApolloCache) (text_ : string)
  : ApolloCache :=
  match readQuery cache with
  | None => cache
  | Some existingData =>
    let filteredEdges := List.filter (keepEdge text_) (edges existingData) in
    if (length filteredEdges =? length (edges existingData))%nat
    then cache
    else writeQuery cache (with_edges existingData filteredEdges)
  end.

(** ** The [messages] field policy of the cache ([messagesFieldPolicy]) *)

(** The arguments of the [messages] field; the policy reads [after] and
    [before] only. *)
Record FieldArgs : Type := mkFieldArgs {
  first : option Z;
  after : option string;
  before : option string
}.

(** [merge(existing, incoming, { args })]; [args] may be [null]. *)
Definition merge (existing : option MessagePage) (incoming : MessagePage)
    (args : option FieldArgs) : MessagePage :=
  match existing with
  | None => incoming
  | Some existing =>
    if truthy (args ≫= after) then
      {| page_typename := page_typename incoming;
         edges := edges existing ++ edges incoming;
         pageInfo := pageInfo incoming |}
    else if truthy (args ≫= before) then
      {| page_typename := page_typename incoming;
         edges := edges incoming ++ edges existing;
         pageInfo :=
           {| pageInfo_typename := pageInfo_typename (pageInfo incoming);
              hasNextPage := hasNextPage (pageInfo existing);
              hasPreviousPage := hasPreviousPage (pageInfo incoming);
              startCursor := startCursor (pageInfo incoming);
              endCursor := endCursor (pageInfo existing) |} |}
    else incoming
  end.

(** An optional callback [cb?.(message)] acting on the state of its owner. *)
Definition call {S : Type} (cb : option (Message -> S -> S)) (message : Message)
    (s : S) : S :=
  match cb with
  | Some f => f message s
  | None => s
  end.

(** ** [widgets/chat/hooks]: the hooks the chat widget is built on *)
Module Hooks.

Section Subscriptions.
Context `{Builtins} {S : Type}.
Variable onMessageAdded : option (Message -> S -> S).
Variable onMessageUpdated : option (Message -> S -> S).

(** [useMessageSubscriptions.ts], [handleNewMessage]: a created message is
    appended when its id is not in the cache, and dropped otherwise. *)
Definition handleNewMessage (st : ApolloCache * S) (newMessage : Message)
  : ApolloCache * S :=
  let '(client, s) := st in
  match readQuery client with
  | None => st
  | Some existingData =>
    let messageExists :=
      some (fun edge => String.eqb (id (node edge)) (id newMessage))
           (edges existingData) in
    if negb messageExists then
      (writeQuery client
         (with_edges existingData (edges existingData ++ [newEdge newMessage])),
       call onMessageAdded newMessage s)
    else st
  end.

(** [useMessageSubscriptions.ts], [handleUpdatedMessage]. *)
Definition handleUpdatedMessage (st : ApolloCache * S) (updatedMessage : Message)
  : ApolloCache * S :=
  let '(client, s) := st in
  match readQuery client with
  | None => st
  | Some existingData =>
    match findIndex (fun edge => String.eqb (id (node edge)) (id updatedMessage))
                    (edges existingData) with
    | None => st
    | Some messageIndex =>
      match edges existingData !! messageIndex with
      | None => st (* not reached *)
      | Some edge =>
        let existingMessage := node edge in
        if Date_lt (updatedAt updatedMessage) (updatedAt existingMessage)
        then st (* outdated update, ignored with a warning *)
        else
          (writeQuery client
             (with_edges existingData
                (<[messageIndex := with_node edge updatedMessage]>
                   (edges existingData))),
           call onMessageUpdated updatedMessage s)
      end
    end
  end.

(** The [onData] callbacks of the two subscriptions: an empty payload is
    ignored. *)
Definition onData_messageAdded (st : ApolloCache * S) (payload : option Message)
  : ApolloCache * S :=
  match payload with
  | Some m => handleNewMessage st m
  | None => st
  end.


End Subscriptions.

(** [useChat.ts]: the state of the chat hook.  [newMessagesCount] is an
    exact integer (the counter stays far below 2^53); [timers] holds the
    delays of the pending reconnect timers. *)
Record ChatState : Type := mkChatState {
  inputValue : string;
  isConnected : bool;
  isAtBottom : bool;
  newMessagesCount : Z;
  timers : list Z
}.

Definition initialChatState : ChatState :=
  {| inputValue := ""; isConnected := true; isAtBottom := true;
     newMessagesCount := 0; timers := [] |}.

Definition setInputValue (v : string) (s : ChatState) : ChatState :=
  {| inputValue := v; isConnected := isConnected s; isAtBottom := isAtBottom s;
     newMessagesCount := newMessagesCount s; timers := timers s |}.

Definition setIsConnected (b : bool) (s : ChatState) : ChatState :=
  {| inputValue := inputValue s; isConnected := b; isAtBottom := isAtBottom s;
     newMessagesCount := newMessagesCount s; timers := timers s |}.

Definition setIsAtBottom (b : bool) (s : ChatState) : ChatState :=
  {| inputValue := inputValue s; isConnected := isConnected s; isAtBottom := b;
     newMessagesCount := newMessagesCount s; timers := timers s |}.

Definition setNewMessagesCount (f : Z -> Z) (s : ChatState) : ChatState :=
  {| inputValue := inputValue s; isConnected := isConnected s;
     isAtBottom := isAtBottom s;
     newMessagesCount := f (newMessagesCount s); timers := timers s |}.

Definition setTimeout (delay : Z) (s : ChatState) : ChatState :=
  {| inputValue := inputValue s; isConnected := isConnected s;
     isAtBottom := isAtBottom s;
     newMessagesCount := newMessagesCount s; timers := timers s ++ [delay] |}.

(** The [onMessageAdded] callback handed to the subscriptions: the message is
    not looked at. *)
Definition onMessageAdded (_ : Message) (s : ChatState) : ChatState :=
  if negb (isAtBottom s)
  then setNewMessagesCount (fun count => count + 1) s
  else s.

(** The [onMessageUpdated] callback only logs. *)
Definition onMessageUpdated (_ : Message) (s : ChatState) : ChatState := s.

Definition handleAtBottomChange (atBottom : bool) (s : ChatState) : ChatState :=
  let s1 := setIsAtBottom atBottom s in
  if atBottom && (0 <? newMessagesCount s)
  then setNewMessagesCount (fun _ => 0) s1
  else s1.

Definition resetNewMessages (s : ChatState) : ChatState :=
  setNewMessagesCount (fun _ => 0) s.

(** What a call of the send operation of [useSendMessage] does to the
    outside world [W], as the chat hook sees it. *)
Inductive SendResult : Type :=
| Returned (message : option Message)
| Thrown.

Section Send.
Context `{Builtins} {W : Type}.
Variable sendMessageMutation : string -> W -> SendResult * W.

(** [useChat.sendMessage]. *)
Definition sendMessage (text_ : string) (st : ChatState * W) : ChatState * W :=
  let '(s, w) := st in
  let trimmedText := String_trim text_ in
  if falsy trimmedText then st
  else
    match sendMessageMutation trimmedText w with
    | (Returned _, w') => (s, w')
    | (Thrown, w') => (setTimeout 3000 (setIsConnected false s), w')
    end.

(** [useChat.handleSubmit]; [sendingMessage] is the loading flag of the
    send hook. *)
Definition handleSubmit (sendingMessage : bool) (st : ChatState * W)
  : ChatState * W :=
  let '(s, w) := st in
  if falsy (String_trim (inputValue s)) || sendingMessage then st
  else
    let messageText := inputValue s in
    sendMessage messageText (setInputValue "" s, w).

End Send.

End Hooks.

(** ** [widgets/chat/lib/hooks]: the hooks built on [cache-utils] *)
Module LibHooks.

Section Subscriptions.
Context `{Builtins} {S : Type}.
Variable onMessageAdded : option (Message -> S -> S).
Variable onMessageUpdated : option (Message -> S -> S).

Definition handleNewMessage (st : ApolloCache * S) (newMessage : Message)
  : ApolloCache * S :=
  let '(client, s) := st in
  (upsertMessageInCache client newMessage, call onMessageAdded newMessage s).

Definition handleUpdatedMessage (st : ApolloCache * S) (updatedMessage : Message)
  : ApolloCache * S :=
  let '(client, s) := st in
  (upsertMessageInCache client updatedMessage,
   call onMessageUpdated updatedMessage s).

End Subscriptions.

(** The Apollo client of [useSendMessage]: its cache and the texts of the
    [SEND_MESSAGE] mutations it has issued. *)
Record Client : Type := mkClient {
  cache : ApolloCache;
  mutations : list string
}.

(** How the server settles a mutation: with a result (whose [data] may be
    missing) or with a network error. *)
Inductive MutationOutcome : Type :=
| Resolved (data : option Message)
| Rejected.

Section SendMessage.
Context `{Builtins}.

(** The [update] callback of the mutation. *)
Definition update (cache_ : ApolloCache) (data : option Message) : ApolloCache :=
  match data with
  | None => cache_
  | Some sent =>
    match readQuery cache_ with
    | None => cache_
    | Some existingData =>
      let finalEdges :=
        let edgesWithoutTemps :=
          List.filter
            (fun edge =>
               let isTemp_ := String.prefix "temp-" (id (node edge)) in
               let sameText := String.eqb (text (node edge)) (text sent) in
               negb (isTemp_ && sameText))
            (edges existingData) in
        let existsNow :=
          some (fun edge => String.eqb (id (node edge)) (id sent))
               edgesWithoutTemps in
        if negb existsNow then edgesWithoutTemps ++ [newEdge sent]
        else
          map (fun edge =>
                 if String.eqb (id (node edge)) (id sent)
                    && Date_ge (updatedAt sent) (updatedAt (node edge))
                 then with_node edge sent
                 else edge)
              edgesWithoutTemps in
      writeQuery cache_ (with_edges existingData finalEdges)
    end
  end.

(** The mutate function of [useMutation]: the request is issued, and on a
    result the [update] callback runs on the cache.  (The optimistic layer,
    dropped when the mutation settles, is not part of the model.) *)
Definition sendMessageMutation (text_ : string) (outcome : MutationOutcome)
    (client : Client) : MutationOutcome * Client :=
  let issued := mutations client ++ [text_] in
  match outcome with
  | Resolved data =>
    (outcome, {| cache := update (cache client) data; mutations := issued |})
  | Rejected =>
    (outcome, {| cache := cache client; mutations := issued |})
  end.

(** [useSendMessage.sendMessage]. *)
Definition sendMessage (text_ : string) (outcome : MutationOutcome)
    (client : Client) : option Message * Client :=
  if falsy (String_trim text_) then (None, client)
  else
    match sendMessageMutation (String_trim text_) outcome client with
    | (Resolved data, client') => (data, client')
    | (Rejected, client') => (None, client')
    end.

End SendMessage.

End LibHooks.

(** ** The delivery of a subscription payload

    Both [useMessageSubscriptions] hooks subscribe with
    [useSubscription(DOCUMENT, { errorPolicy, onData })] and set no
    [fetchPolicy], so the Apollo client writes every payload to its cache
    before it calls [onData].  The subscription documents select [id],
    [text], [status], [updatedAt] and [sender], and the cache of
    [createCacheWithPolicies] keeps the default key of a [Message] (its
    type name and id): the write replaces the record of that id, which every
    edge of the stored page with that id reads.  A payload with an id no
    edge carries changes no edge.  The write is the client's own, not a
    [writeQuery] of the hooks, and is not logged. *)
Definition readThrough (payload : Message) (edge : MessageEdge) : MessageEdge :=
  if String.eqb (id (node edge)) (id payload) then with_node edge payload
  else edge.

Definition writeEntity (payload : Message) (cache_ : ApolloCache) : ApolloCache :=
  match query_data cache_ with
  | None => cache_
  | Some page =>
    {| query_data :=
         Some (with_edges page (map (readThrough payload) (edges page)));
       write_log := write_log cache_ |}
  end.

Module Subscription.

Section Delivery.
Context `{Builtins} {S : Type}.
Variable onMessageAdded : option (Message -> S -> S).
Variable onMessageUpdated : option (Message -> S -> S).

(** A payload of the created stream and of the updated stream, delivered
    to the hook of [widgets/chat/hooks]. *)
Definition messageAdded (st : ApolloCache * S) (payload : Message)
  : ApolloCache * S :=
  Hooks.onData_messageAdded onMessageAdded
    (writeEntity payload (fst st), snd st) (Some payload).




End Delivery.

End Subscription.

(** ** An instance of the built-ins, to run the model

    [isoTime] reads the timestamps that [Date.prototype.toISOString] writes
    ([YYYY-MM-DDTHH:mm:ss.sssZ], the only format the server emits) and is
    NaN on every other string; [asciiTrim] trims the ASCII white space.  The
    theorems below hold for every instance; this one evaluates them on
    concrete stores. *)

Definition digit (c : ascii) : option Z :=
  let n := Z.of_N (N_of_ascii c) in
  if (48 <=? n) && (n <=? 57) then Some (n - 48) else None.

Fixpoint digits (acc : Z) (cs : list ascii) : option Z :=
  match cs with
  | [] => Some acc
  | c :: cs' =>
    match digit c with
    | Some d => digits (10 * acc + d) cs'
    | None => None
    end
  end.

Definition isLeapYear (y : Z) : bool :=
  ((y mod 4 =? 0) && negb (y mod 100 =? 0)) || (y mod 400 =? 0).

Definition daysInMonth (y m : Z) : Z :=
  if m =? 2 then (if isLeapYear y then 29 else 28)
  else if (m =? 4) || (m =? 6) || (m =? 9) || (m =? 11) then 30
  else 31.

(** Days between 1970-01-01 and the civil date [y]-[m]-[d]. *)
Definition daysFromCivil (y m d : Z) : Z :=
  let y' := if m <=? 2 then y - 1 else y in
  let era := y' / 400 in
  let yoe := y' - era * 400 in
  let doy := (153 * (if 2 <? m then m - 3 else m + 9) + 2) / 5 + d - 1 in
  let doe := yoe * 365 + yoe / 4 - yoe / 100 + doy in
  era * 146097 + doe - 719468.

Definition isoTime (s : string) : option Z :=
  match list_ascii_of_string s with
  | [y1; y2; y3; y4; "-"; m1; m2; "-"; d1; d2; "T";
     h1; h2; ":"; n1; n2; ":"; s1; s2; "."; f1; f2; f3; "Z"]%char =>
    y ← digits 0 [y1; y2; y3; y4];
    m ← digits 0 [m1; m2];
    d ← digits 0 [d1; d2];
    h ← digits 0 [h1; h2];
    n ← digits 0 [n1; n2];
    sec ← digits 0 [s1; s2];
    ms ← digits 0 [f1; f2; f3];
    if (1 <=? m) && (m <=? 12) && (1 <=? d) && (d <=? daysInMonth y m)
       && (h <=? 23) && (n <=? 59) && (sec <=? 59)
    then Some (daysFromCivil y m d * 86400000
               + h * 3600000 + n * 60000 + sec * 1000 + ms)
    else None
  | _ => None
  end.

Definition isAsciiSpace (c : ascii) : bool :=
  let n := Z.of_N (N_of_ascii c) in
  ((9 <=? n) && (n <=? 13)) || (n =? 32).

Fixpoint dropSpaces (cs : list ascii) : list ascii :=
  match cs with
  | [] => []
  | c :: cs' => if isAsciiSpace c then dropSpaces cs' else cs
  end.

Definition asciiTrim (s : string) : string :=
  string_of_list_ascii
    (rev (dropSpaces (rev (dropSpaces (list_ascii_of_string s))))).

Definition runtime : Builtins :=
  {| Date_getTime := isoTime; String_trim := asciiTrim |}.

(** ** Vocabulary of the statements *)

(** The edge that [findIndex] locates for an id: the first one carrying it. *)
Definition firstWithId (es : list MessageEdge) (i : nat) (e : MessageEdge)
    (ident : string) : Prop :=
  es !! i = Some e
  ∧ id (node e) = ident
  ∧ Forall (λ e', id (node e') ≠ ident) (take i es).

(** The record the store holds for an id. *)
Definition storedNode (ident : string) (page : MessagePage) : option Message :=
  node <$> List.find (fun e => String.eqb (id (node e)) ident) (edges page).

Definition stored (ident : string) (cache : ApolloCache) : option Message :=
  readQuery cache ≫= storedNode ident.

(** A temporary edge whose text is the submitted text. *)
Definition evicted (text_ : string) (e : MessageEdge) : Prop :=
  isTemp e = true ∧ text (node e) = text_.

(** The edges that carry another id than [ident], and those whose text is
    [text_]. *)
Definition otherThan (ident : string) (e : MessageEdge) : bool :=
  negb (String.eqb (id (node e)) ident).



(** At most one edge per id (the store invariant of the data model). *)
Definition uniqueIds (es : list MessageEdge) : Prop :=
  NoDup (map (fun e => id (node e)) es).

Section Vocabulary.
Context `{Builtins}.

(** A message whose timestamp is the instant [t]. *)
Definition atInstant (m : Message) (t : Z) : Prop :=
  Date_getTime (updatedAt m) = Some t.

Definition wellDated (m : Message) : Prop :=
  is_Some (Date_getTime (updatedAt m)).

(** A finite sequence of upserts, applied in order. *)
Definition upserts (cache : ApolloCache) (ms : list Message) : ApolloCache :=
  fold_left upsertMessageInCache ms cache.

(** What one upsert does to the record held for [ident]. *)
Definition arbitrate (ident : string) (cur : option Message) (m : Message)
  : option Message :=
  if String.eqb (id m) ident then
    match cur with
    | None => Some m
    | Some n => if Date_lt (updatedAt m) (updatedAt n) then Some n else Some m
    end
  else cur.

(** The updates applied to [ident]: the record held at the start, if any,
    then the upserts of the sequence that carry the id. *)
Definition applied (ident : string) (start : option Message) (ms : list Message)
  : list Message :=
  option_list start ++ List.filter (fun m => String.eqb (id m) ident) ms.

End Vocabulary.

(** ** Stores to run the model on (after [cache-utils.test.ts]) *)

Definition createMockMessage (id_ text_ updatedAt_ : string)
    (status_ : MessageStatus) (sender_ : MessageSender) : Message :=
  {| message_typename := Some "Message"; id := id_; text := text_;
     status := status_; updatedAt := updatedAt_; sender := sender_ |}.

Definition createMockMessageEdge (message : Message) : MessageEdge :=
  {| edge_typename := Some "MessageEdge"; node := message;
     cursor := ("cursor_" ++ id message)%string |}.

Definition createMockMessagePage (messages_ : list Message) : MessagePage :=
  {| page_typename := Some "MessagePage";
     edges := map createMockMessageEdge messages_;
     pageInfo :=
       {| pageInfo_typename := Some "MessagePageInfo";
          hasNextPage := false;
          hasPreviousPage := false;
          startCursor := cursor <$> head (map createMockMessageEdge messages_);
          endCursor := cursor <$> last (map createMockMessageEdge messages_) |} |}.

Definition T1 : string := "2023-01-01T00:00:00.000Z".
Definition T2 : string := "2023-01-02T00:00:00.000Z".
Definition T3 : string := "2023-01-03T00:00:00.000Z".

(** A customer wrote "hi"; the admin answers "hi" and the placeholder of the
    answer is in the store. *)
Definition customerHi : Message := createMockMessage "1" "hi" T1 Sent Customer.
Definition tempHi : Message := createMockMessage "temp-1" "hi" T2 Sending Admin.
Definition tempBye : Message := createMockMessage "temp-2" "bye" T2 Sending Admin.
Definition confirmedHi : Message := createMockMessage "42" "hi" T3 Sending Admin.

Definition greetedStore : ApolloCache :=
  mkCache (Some (createMockMessagePage [customerHi; tempHi])) [].

Definition pendingStore : ApolloCache :=
  mkCache (Some (createMockMessagePage [tempHi; tempBye; tempHi])) [].


(** Pages for the pagination examples: [A] of two edges, [B] of three and
    [C] of two, with disjoint ids. *)
Definition message (id_ : string) : Message :=
  createMockMessage id_ ("Message number " ++ id_)%string T1 Read Customer.

Definition pageA : MessagePage :=
  {| page_typename := Some "MessagePage";
     edges := map createMockMessageEdge [message "0"; message "1"];
     pageInfo :=
       {| pageInfo_typename := Some "MessagePageInfo";
          hasNextPage := true; hasPreviousPage := false;
          startCursor := Some "cursor_0"; endCursor := Some "cursor_1" |} |}.

Definition pageB : MessagePage :=
  {| page_typename := Some "MessagePage";
     edges := map createMockMessageEdge [message "2"; message "3"; message "4"];
     pageInfo :=
       {| pageInfo_typename := Some "MessagePageInfo";
          hasNextPage := false; hasPreviousPage := true;
          startCursor := Some "cursor_2"; endCursor := Some "cursor_4" |} |}.

Definition pageC : MessagePage :=
  {| page_typename := Some "MessagePage";
     edges := map createMockMessageEdge [message "8"; message "9"];
     pageInfo :=
       {| pageInfo_typename := Some "MessagePageInfo";
          hasNextPage := false; hasPreviousPage := true;
          startCursor := Some "cursor_8"; endCursor := Some "cursor_9" |} |}.

Definition afterArgs : FieldArgs :=
  {| first := Some 20; after := Some "1"; before := None |}.

Definition beforeArgs : FieldArgs :=
  {| first := Some 20; after := None; before := Some "0" |}.

(** Message 7 as stored at [T1], and the versions of it that arrive. *)
Definition stored7 : Message := createMockMessage "7" "Hello" T1 Sending Admin.
Definition newer7 : Message := createMockMessage "7" "Hello" T2 Sent Admin.
Definition newest7 : Message := createMockMessage "7" "Hello" T3 Read Admin.
Definition tied7 : Message := createMockMessage "7" "Hello again" T2 Sent Admin.


(** The chat hook scrolled away from the bottom, and a message of the
    local actor. *)
Definition scrolledAway : Hooks.ChatState :=
  Hooks.handleAtBottomChange false Hooks.initialChatState.

Definition adminMessage : Message :=
  createMockMessage "3" "Admin message" T1 Sent Admin.

Definition customerMessage : Message :=
  createMockMessage "3" "New message" T1 Sent Customer.

(** ** Edge lists

    The edge list [upsertMessageInCache] computes ([newEdges], or the list
    it read when the incoming message is stale), apart from the cache. *)

Section EdgeLists.
Context `{Builtins}.

Definition upsertEdges (es : list MessageEdge) (message : Message)
  : list MessageEdge :=
  match findIndex (fun e => String.eqb (id (node e)) (id message)) es with
  | None => es ++ [newEdge message]
  | Some index =>
    match es !! index with
    | None => es
    | Some edge =>
      if Date_lt (updatedAt message) (updatedAt (node edge))
      then es
      else <[index := with_node edge message]> es
    end
  end.

End EdgeLists.

(** The ids of an edge list, in order. *)
Definition ids (es : list MessageEdge) : list string :=
  map (fun e => id (node e)) es.

(** ** [server/index.ts]: the [messages] resolver *)
Module Server.

(** [Array.prototype.slice(start, end)]: a negative index counts from the
    end, and both are clamped to the array. *)
Definition slice {A : Type} (l : list A) (start end_ : Z) : list A :=
  let len := Z.of_nat (length l) in
  let k := if start <? 0 then Z.max (len + start) 0 else Z.min start len in
  let final := if end_ <? 0 then Z.max (len + end_) 0 else Z.min end_ len in
  take (Z.to_nat (final - k)) (drop (Z.to_nat k) l).

(** The number [findIndex] answers. *)
Definition indexOf (found : option nat) : Z :=
  match found with
  | Some i => Z.of_nat i
  | None => -1
  end.

(** [first || 10]. *)
Definition orTen (first_ : option Z) : Z :=
  match first_ with
  | Some n => if n =? 0 then 10 else n
  | None => 10
  end.

Definition edgeOf (message_ : Message) : MessageEdge :=
  {| edge_typename := None; node := message_; cursor := id message_ |}.

(** The resolver of [Query.messages] over the message list [db]. *)
Definition messages (db : list Message) (args : FieldArgs) : MessagePage :=
  let afterIndex :=
    match after args with
    | Some a =>
      if negb (falsy a)
      then indexOf (findIndex (fun msg => String.eqb (id msg) a) db)
      else -1
    | None => -1
    end in
  let beforeIndex :=
    match before args with
    | Some b =>
      if negb (falsy b)
      then indexOf (findIndex (fun msg => String.eqb (id msg) b) db)
      else Z.of_nat (length db)
    | None => Z.of_nat (length db)
    end in
  let slicedMessages := slice db (afterIndex + 1) beforeIndex in
  let paginatedMessages := slice slicedMessages 0 (orTen (first args)) in
  let edges_ := map edgeOf paginatedMessages in
  {| page_typename := None;
     edges := edges_;
     pageInfo :=
       {| pageInfo_typename := None;
          hasNextPage :=
            (beforeIndex <? Z.of_nat (length db))
            || (orTen (first args) <? Z.of_nat (length slicedMessages));
          hasPreviousPage := 0 <=? afterIndex;
          startCursor := cursor <$> head edges_;
          endCursor := cursor <$> last edges_ |} |}.

End Server.

(** ** [widgets/chat/lib/hooks/useMessages.ts] *)
Module UseMessages.

Definition DEFAULT_PAGE_SIZE : Z := 20.

(** A query of the Apollo client: the answer of the server, when there is
    one, goes into the cache through the field policy, with the variables
    of the query as [args].  [fetch] is the server; [None] is a failed
    request. *)
Definition runQuery (fetch : FieldArgs → option MessagePage)
    (variables : FieldArgs) (cache_ : ApolloCache) : ApolloCache :=
  match fetch variables with
  | Some incoming =>
    writeQuery cache_ (merge (readQuery cache_) incoming (Some variables))
  | None => cache_
  end.

(** The query of the hook, with its options [first] and [after]. *)
Definition useQuery (fetch : FieldArgs → option MessagePage)
    (first_ : option Z) (after_ : option string) (cache_ : ApolloCache)
  : ApolloCache :=
  runQuery fetch
    {| first := Some (default DEFAULT_PAGE_SIZE first_);
       after := after_; before := None |}
    cache_.

(** [handleFetchMore]: nothing is fetched without a next page or without an
    end cursor; a failed request is logged and dropped. *)
Definition handleFetchMore (fetch : FieldArgs → option MessagePage)
    (cache_ : ApolloCache) : ApolloCache :=
  match readQuery cache_ with
  | None => cache_
  | Some data =>
    if negb (hasNextPage (pageInfo data))
       || negb (truthy (endCursor (pageInfo data)))
    then cache_
    else
      runQuery fetch
        {| first := Some DEFAULT_PAGE_SIZE;
           after := endCursor (pageInfo data); before := None |}
        cache_
  end.

(** What the hook returns: [messages] and [hasNextPage]. *)
Definition messagesOf (cache_ : ApolloCache) : list Message :=
  match readQuery cache_ with
  | Some data => map node (edges data)
  | None => []
  end.

Definition hasNextPageOf (cache_ : ApolloCache) : bool :=
  match readQuery cache_ with
  | Some data => hasNextPage (pageInfo data)
  | None => false
  end.

End UseMessages.

(** The chat over a server whose message list is [db]: the first load of
    [useMessages], then [j] calls of [handleFetchMore]. *)
Definition loaded (db : list Message) (j : nat) : ApolloCache :=
  Nat.iter j
    (UseMessages.handleFetchMore (fun args => Some (Server.messages db args)))
    (UseMessages.useQuery (fun args => Some (Server.messages db args))
       None None (mkCache None [])).

(** ** [server/index.ts]: the message list and what is sent to it *)
Module ServerState.

(** The thirty messages the server starts with; [now] is the time of the
    start. *)
Definition initialMessages (now : string) : list Message :=
  map (fun index : nat =>
         {| message_typename := None;
            id := pretty index;
            text := ("Message number " ++ pretty index)%string;
            status := Read;
            updatedAt := now;
            sender := if Nat.odd index then Admin else Customer |})
      (seq 0 30).

(** The [sendMessage] mutation: the new message, which is also published as
    [messageAdded], and the message list after the push. *)
Definition sendMessage (db : list Message) (text_ now : string)
  : Message * list Message :=
  let messageAdded :=
    {| message_typename := None;
       id := pretty (length db + 1)%nat;
       text := text_;
       status := Sending;
       updatedAt := now;
       sender := Admin |} in
  (messageAdded, db ++ [messageAdded]).

(** One round of [asyncReplyMessage]: when the last message is of the
    admin, a reply of the customer is published; it is not pushed to the
    list. *)
Definition asyncReplyMessage (db : list Message) (now : string)
  : option Message :=
  match last db with
  | Some lastMessage =>
    match sender lastMessage with
    | Admin =>
      let index := (length db + 1)%nat in
      Some {| message_typename := None;
              id := pretty index;
              text := ("Message number " ++ pretty index)%string;
              status := Sent;
              updatedAt := now;
              sender := Customer |}
    | Customer => None
    end
  | None => None
  end.

(** The message list after a sequence of [sendMessage] mutations, each with
    its text and its time. *)
Definition afterSends (now : string) (sends : list (string * string))
  : list Message :=
  fold_left (fun db send => snd (sendMessage db (fst send) (snd send)))
            sends (initialMessages now).

End ServerState.

(** ** [widgets/chat/ui]: the message input and its wiring in the widget *)
Module MessageInput.

Section Input.
Context `{Builtins} {St : Type}.
Variable onSubmit : St → St.

Definition canSubmit (value : string) (loading disabled : bool) : bool :=
  negb loading && negb disabled && negb (falsy (String_trim value)).

(** The click on the send button. *)
Definition handleSubmit (value : string) (loading disabled : bool) (st : St)
  : St :=
  if canSubmit value loading disabled then onSubmit st else st.

(** A key pressed in the input. *)
Definition handleKeyDown (key : string) (shiftKey : bool) (value : string)
    (loading disabled : bool) (st : St) : St :=
  if String.eqb key "Enter" && negb shiftKey then
    if canSubmit value loading disabled then onSubmit st else st
  else st.

Definition isSubmitDisabled (value : string) (loading disabled : bool) : bool :=
  loading || disabled || falsy (String_trim value).

End Input.

End MessageInput.

Module ChatWidget.

Section Widget.
Context `{Builtins} {W : Type}.
Variable sendMessageMutation : string → W → Hooks.SendResult * W.
Variable sendingMessage : bool.

(** [MessageInput] as the widget renders it: [value] is the input of the
    chat hook, [loading] the sending flag, [disabled] the lost connection
    and [onSubmit] the [handleSubmit] of the chat hook. *)
Definition clickSend (st : Hooks.ChatState * W) : Hooks.ChatState * W :=
  MessageInput.handleSubmit
    (Hooks.handleSubmit sendMessageMutation sendingMessage)
    (Hooks.inputValue (fst st)) sendingMessage
    (negb (Hooks.isConnected (fst st))) st.

Definition keyDown (key : string) (shiftKey : bool)
    (st : Hooks.ChatState * W) : Hooks.ChatState * W :=
  MessageInput.handleKeyDown
    (Hooks.handleSubmit sendMessageMutation sendingMessage)
    key shiftKey
    (Hooks.inputValue (fst st)) sendingMessage
    (negb (Hooks.isConnected (fst st))) st.

End Widget.

(** The banner of new messages is rendered when the counter is not zero and
    the list is away from the bottom. *)
Definition bannerShown (s : Hooks.ChatState) : bool :=
  negb (Hooks.newMessagesCount s =? 0) && negb (Hooks.isAtBottom s).

(** The click on the banner ([handleBannerClick]); the scrolling itself is
    the list's. *)
Definition handleBannerClick (s : Hooks.ChatState) : Hooks.ChatState :=
  Hooks.resetNewMessages s.

End ChatWidget.


(** The events that reach the state of the chat hook. *)
Inductive ChatEvent : Type :=
| MessageAdded (m : Message)
| MessageUpdated (m : Message)
| AtBottomChange (atBottom : bool)
| ResetNewMessages
| BannerClick
| InputChange (value : string).

(** One event on the chat hook.  The handlers are closures of the last
    render: [onMessageAdded] tests the [isAtBottom] of that render, and
    [handleAtBottomChange], memoized on [newMessagesCount], the counter of
    that render; [rendered] is the state that render saw.  The setters act
    on the pending state [s], in the order of the calls, the increment as a
    function of the pending counter. *)
Definition chatStep (rendered s : Hooks.ChatState) (ev : ChatEvent)
  : Hooks.ChatState :=
  match ev with
  | MessageAdded _ =>
    if negb (Hooks.isAtBottom rendered)
    then Hooks.setNewMessagesCount (fun count => count + 1) s
    else s
  | MessageUpdated m => Hooks.onMessageUpdated m s
  | AtBottomChange atBottom =>
    let s1 := Hooks.setIsAtBottom atBottom s in
    if atBottom && (0 <? Hooks.newMessagesCount rendered)
    then Hooks.setNewMessagesCount (fun _ => 0) s1
    else s1
  | ResetNewMessages => Hooks.resetNewMessages s
  | BannerClick => ChatWidget.handleBannerClick s
  | InputChange v => Hooks.setInputValue v s
  end.

(** The events handled between two renders: each handler is the closure of
    the render the batch starts from, and the next render sees the state the
    batch leaves. *)
Definition chatBatch (s : Hooks.ChatState) (evs : list ChatEvent)
  : Hooks.ChatState :=
  fold_left (chatStep s) evs s.

(** A run of the chat hook from its first render, batch after batch. *)
Definition chatRun (batches : list (list ChatEvent)) : Hooks.ChatState :=
  fold_left chatBatch batches Hooks.initialChatState.

Definition isMessageAdded (ev : ChatEvent) : bool :=
  match ev with
  | MessageAdded _ => true
  | _ => false
  end.

(** A server list of twenty-five messages, and stores for the runs. *)
Definition sampleDb : list Message :=
  map message
    ["0"; "1"; "2"; "3"; "4"; "5"; "6"; "7"; "8"; "9"; "10"; "11"; "12";
     "13"; "14"; "15"; "16"; "17"; "18"; "19"; "20"; "21"; "22"; "23"; "24"].

Definition samplePage : MessagePage :=
  createMockMessagePage [message "0"; newer7].

Definition sampleStore : ApolloCache := mkCache (Some samplePage) [].

Definition typingHi : Hooks.ChatState :=
  Hooks.setInputValue "  hi  " Hooks.initialChatState.


(** ** Tactics for literal stores *)

(** Membership in a literal list, case by case. *)
Ltac each_edge He :=
  apply list_elem_of_In in He; simpl in He;
  repeat (destruct He as [<- | He]; [| try contradiction]).

Ltac first_edge :=
  split; [reflexivity | split; [reflexivity | repeat constructor; discriminate]].

(** A decidable statement about literal data, by evaluation. *)
Ltac by_decision := apply (bool_decide_unpack _); vm_compute; exact I.

(** * Properties *)

(** ** [findIndex], [find] and first occurrences *)

Lemma findIndex_None {A : Type} (p : A → bool) (l : list A) :
  findIndex p l = None ↔ Forall (λ x, p x = false) l.
Proof.
  induction l as [|x l IH]; simpl.
  - split; [constructor | reflexivity].
  - destruct (p x) eqn:Hx.
    + split; [discriminate |].
      intros Hall. inversion Hall; congruence.
    + destruct (findIndex p l) as [i|] eqn:Hi; simpl.
      * split; [discriminate |].
        intros Hall. inversion Hall as [|? ? _ Hl]; subst.
        apply IH in Hl. discriminate.
      * split; [| reflexivity].
        intros _. constructor; [exact Hx | by apply IH].
Qed.

Lemma findIndex_Some {A : Type} (p : A → bool) (l : list A) (i : nat) :
  findIndex p l = Some i ↔
  ∃ x, l !! i = Some x ∧ p x = true ∧ Forall (λ y, p y = false) (take i l).
Proof.
  revert i. induction l as [|x l IH]; intros i; simpl.
  - split; [discriminate | intros (y & Hy & _); discriminate].
  - destruct (p x) eqn:Hx.
    + split.
      * intros [= <-]. exists x. repeat split; [exact Hx | constructor].
      * intros (y & Hy & Hpy & Hall). destruct i as [|i]; [reflexivity |].
        simpl in Hall. inversion Hall; congruence.
    + split.
      * destruct (findIndex p l) as [j|] eqn:Hj; simpl; [| discriminate].
        intros [= <-]. destruct (proj1 (IH j) eq_refl) as (y & Hy & Hpy & Hall).
        exists y. repeat split; [exact Hy | exact Hpy |].
        simpl. by constructor.
      * intros (y & Hy & Hpy & Hall). destruct i as [|i]; simpl in *.
        { congruence. }
        inversion Hall as [|? ? _ Hl]; subst.
        rewrite (proj2 (IH i)); [reflexivity |]. eauto.
Qed.

(** The index [findIndex] answers is an index of the array, so the lookup
    that follows it in [upsertMessageInCache] and [handleUpdatedMessage]
    finds an edge. *)
Lemma findIndex_in_range {A : Type} (p : A → bool) (l : list A) (i : nat) :
  findIndex p l = Some i → is_Some (l !! i).
Proof. intros Hfind. apply findIndex_Some in Hfind as (x & Hx & _). by exists x. Qed.

Lemma eqb_id_false (ident : string) (es : list MessageEdge) :
  Forall (λ e, String.eqb (id (node e)) ident = false) es ↔
  Forall (λ e, id (node e) ≠ ident) es.
Proof.
  apply Forall_proper; [| reflexivity].
  intros e. apply String.eqb_neq.
Qed.

Lemma findIndex_first (es : list MessageEdge) (ident : string) (i : nat)
    (e : MessageEdge) :
  firstWithId es i e ident →
  findIndex (fun e' => String.eqb (id (node e')) ident) es = Some i.
Proof.
  intros (Hi & Hid & Hbefore). apply findIndex_Some.
  exists e. repeat split; [exact Hi | by apply String.eqb_eq |].
  by apply eqb_id_false.
Qed.

Lemma findIndex_absent (es : list MessageEdge) (ident : string) :
  (∀ e, e ∈ es → id (node e) ≠ ident) →
  findIndex (fun e' => String.eqb (id (node e')) ident) es = None.
Proof.
  intros Habsent. apply findIndex_None, eqb_id_false, Forall_forall.
  exact Habsent.
Qed.

Lemma findIndex_present (es : list MessageEdge) (ident : string) (i : nat) :
  findIndex (fun e' => String.eqb (id (node e')) ident) es = Some i →
  ∃ e, firstWithId es i e ident.
Proof.
  intros Hfind. apply findIndex_Some in Hfind as (e & Hi & Hid & Hbefore).
  exists e. repeat split; [exact Hi | by apply String.eqb_eq |].
  by apply eqb_id_false.
Qed.

Section DateFacts.
Context `{Builtins}.

Lemma Date_ge_not_lt (a b : string) : Date_ge a b = true → Date_lt a b = false.
Proof.
  unfold Date_ge, Date_lt.
  destruct (Date_getTime a), (Date_getTime b); try reflexivity.
  intros Hge. apply Z.leb_le in Hge. apply Z.ltb_ge. exact Hge.
Qed.

Lemma Date_lt_same_instant (a b : string) :
  Date_getTime a = Date_getTime b → Date_lt a b = false.
Proof.
  unfold Date_lt. intros ->.
  destruct (Date_getTime b); [apply Z.ltb_irrefl | reflexivity].
Qed.

Lemma Date_lt_irrefl (a : string) : Date_lt a a = false.
Proof. by apply Date_lt_same_instant. Qed.

End DateFacts.

Lemma firstWithId_insert (es : list MessageEdge) (i : nat) (e e' : MessageEdge)
    (ident : string) :
  firstWithId es i e ident → id (node e') = ident →
  firstWithId (<[i := e']> es) i e' ident.
Proof.
  intros (Hi & _ & Hbefore) Hid. repeat split.
  - apply list_lookup_insert_eq. by eapply lookup_lt_Some.
  - exact Hid.
  - by rewrite take_insert_ge.
Qed.

Lemma firstWithId_appended (es : list MessageEdge) (e : MessageEdge) :
  (∀ e', e' ∈ es → id (node e') ≠ id (node e)) →
  firstWithId (es ++ [e]) (length es) e (id (node e)).
Proof.
  intros Habsent. repeat split.
  - by rewrite lookup_app_r, Nat.sub_diag.
  - rewrite take_app_length. by apply Forall_forall.
Qed.

(** ** Upsert-by-freshness *)

Section Upsert.
Context `{Builtins}.

(** The three outcomes of an upsert on a store that holds data, read off
    the first edge with the incoming id. *)
Lemma upsert_absent (page : MessagePage) (log : list MessagePage) (m : Message) :
  (∀ e, e ∈ edges page → id (node e) ≠ id m) →
  upsertMessageInCache (mkCache (Some page) log) m =
  writeQuery (mkCache (Some page) log)
    (with_edges page (edges page ++ [newEdge m])).
Proof.
  intros Habsent. unfold upsertMessageInCache. simpl.
  by rewrite findIndex_absent.
Qed.

Lemma upsert_stale (page : MessagePage) (log : list MessagePage) (m : Message)
    (i : nat) (e : MessageEdge) :
  firstWithId (edges page) i e (id m) →
  Date_lt (updatedAt m) (updatedAt (node e)) = true →
  upsertMessageInCache (mkCache (Some page) log) m = mkCache (Some page) log.
Proof.
  intros Hfirst Hstale. unfold upsertMessageInCache. simpl.
  rewrite (findIndex_first _ _ _ _ Hfirst).
  destruct Hfirst as (-> & _). by rewrite Hstale.
Qed.

Lemma upsert_fresh (page : MessagePage) (log : list MessagePage) (m : Message)
    (i : nat) (e : MessageEdge) :
  firstWithId (edges page) i e (id m) →
  Date_lt (updatedAt m) (updatedAt (node e)) = false →
  upsertMessageInCache (mkCache (Some page) log) m =
  writeQuery (mkCache (Some page) log)
    (with_edges page (<[i := with_node e m]> (edges page))).
Proof.
  intros Hfirst Hfresh. unfold upsertMessageInCache. simpl.
  rewrite (findIndex_first _ _ _ _ Hfirst).
  destruct Hfirst as (-> & _). by rewrite Hfresh.
Qed.

(** Every store either lacks the id or has a first edge with it. *)
Lemma absent_or_first (es : list MessageEdge) (ident : string) :
  (∀ e, e ∈ es → id (node e) ≠ ident) ∨ (∃ i e, firstWithId es i e ident).
Proof.
  destruct (findIndex (fun e' => String.eqb (id (node e')) ident) es)
    as [i|] eqn:Hfind.
  - right. exists i. by apply findIndex_present.
  - left. apply findIndex_None, eqb_id_false in Hfind.
    by apply Forall_forall.
Qed.

(** C1: upsert-by-freshness.  When no edge carries the incoming id, one edge
    with the incoming message and the cursor [cursor_<id>] is appended at the
    end; when an edge carries it and the incoming timestamp is strictly older
    than the stored one, the cache is left as it was (no write); when the
    incoming timestamp is greater or equal, the node of that edge is replaced
    at its position. *)
Theorem upsert_by_freshness (page : MessagePage) (log : list MessagePage)
    (m : Message) :
  let cache := mkCache (Some page) log in
  ((∀ e, e ∈ edges page → id (node e) ≠ id m) →
     upsertMessageInCache cache m =
     writeQuery cache
       (with_edges page
          (edges page ++
             [{| edge_typename := Some "MessageEdge"; node := m;
                 cursor := ("cursor_" ++ id m)%string |}])))
  ∧ (∀ i e, firstWithId (edges page) i e (id m) →
       (Date_lt (updatedAt m) (updatedAt (node e)) = true →
          upsertMessageInCache cache m = cache)
       ∧ (Date_ge (updatedAt m) (updatedAt (node e)) = true →
          upsertMessageInCache cache m =
          writeQuery cache
            (with_edges page (<[i := with_node e m]> (edges page)))
          ∧ length (<[i := with_node e m]> (edges page)) = length (edges page)
          ∧ <[i := with_node e m]> (edges page) !! i
            = Some {| edge_typename := edge_typename e; node := m;
                      cursor := cursor e |})).
Proof.
  intros cache. split.
  - intros Habsent. by apply upsert_absent.
  - intros i e Hfirst. split.
    + intros Hstale. by eapply upsert_stale.
    + intros Hge. split; [| split].
      * apply upsert_fresh; [exact Hfirst | by apply Date_ge_not_lt].
      * apply length_insert.
      * apply list_lookup_insert_eq. destruct Hfirst as (Hi & _).
        by eapply lookup_lt_Some.
Qed.

(** C3: idempotence.  Applying the same message twice leaves the same data
    in the store as applying it once; and when the incoming timestamp is the
    same instant as the stored one, the incoming message replaces the stored
    node. *)
Theorem upsert_idempotent (cache : ApolloCache) (m : Message) :
  readQuery (upsertMessageInCache (upsertMessageInCache cache m) m)
  = readQuery (upsertMessageInCache cache m)
  ∧ (∀ page i e,
       readQuery cache = Some page →
       firstWithId (edges page) i e (id m) →
       Date_getTime (updatedAt m) = Date_getTime (updatedAt (node e)) →
       readQuery (upsertMessageInCache cache m)
       = Some (with_edges page (<[i := with_node e m]> (edges page)))).
Proof.
  destruct cache as [[page|] log]; [| by split].
  split.
  - destruct (absent_or_first (edges page) (id m)) as [Habsent | (i & e & Hfirst)].
    + rewrite upsert_absent by exact Habsent. unfold writeQuery at 1 2.
      rewrite (upsert_fresh _ _ m (length (edges page)) (newEdge m)).
      * simpl. f_equal. unfold with_edges. simpl. f_equal.
        apply list_insert_id. by rewrite lookup_app_r, Nat.sub_diag.
      * simpl. by apply (firstWithId_appended _ (newEdge m)).
      * apply Date_lt_irrefl.
    + destruct (Date_lt (updatedAt m) (updatedAt (node e))) eqn:Hlt.
      * rewrite (upsert_stale _ _ _ _ _ Hfirst Hlt).
        by rewrite (upsert_stale _ _ _ _ _ Hfirst Hlt).
      * rewrite (upsert_fresh _ _ _ _ _ Hfirst Hlt). unfold writeQuery at 1 2.
        rewrite (upsert_fresh _ _ m i (with_node e m)).
        -- simpl. f_equal. unfold with_edges. simpl. f_equal.
           apply list_insert_insert_eq.
        -- simpl. by eapply firstWithId_insert.
        -- apply Date_lt_irrefl.
  - intros page' i e [= <-] Hfirst Htie.
    rewrite (upsert_fresh _ _ _ _ _ Hfirst); [reflexivity |].
    by apply Date_lt_same_instant.
Qed.

End Upsert.

(** ** Temp-record eviction *)

Lemma filter_length_eq {A : Type} (p : A → bool) (l : list A) :
  length (List.filter p l) = length l → List.filter p l = l.
Proof.
  induction l as [|x l IH]; simpl; [reflexivity |].
  destruct (p x); simpl.
  - intros [= Hlen]. f_equal. by apply IH.
  - intros Hlen. pose proof (List.filter_length_le p l). lia.
Qed.

Lemma filter_all_true {A : Type} (p : A → bool) (l : list A) :
  (∀ x, x ∈ l → p x = true) → List.filter p l = l.
Proof.
  induction l as [|x l IH]; simpl; intros Hall; [reflexivity |].
  rewrite Hall by left. f_equal. apply IH. intros y Hy. apply Hall. by right.
Qed.

Lemma keepEdge_spec (text_ : string) (e : MessageEdge) :
  keepEdge text_ e = true ↔ ¬ evicted text_ e.
Proof.
  unfold keepEdge, evicted. rewrite negb_true_iff, andb_false_iff.
  rewrite String.eqb_neq. destruct (isTemp e); split; intros Hk.
  - intros [_ Htext]. destruct Hk; [discriminate | contradiction].
  - right. intros Htext. by apply Hk.
  - intros [? _]. discriminate.
  - by left.
Qed.

Lemma with_edges_same (page : MessagePage) : with_edges page (edges page) = page.
Proof. by destruct page. Qed.

(** Whether it writes or not, eviction leaves the filtered page in the
    store. *)
Lemma removeTemp_data (page : MessagePage) (log : list MessagePage)
    (text_ : string) :
  readQuery (removeTempMessagesByText (mkCache (Some page) log) text_)
  = Some (with_edges page (List.filter (keepEdge text_) (edges page))).
Proof.
  unfold removeTempMessagesByText. simpl.
  destruct (Nat.eqb_spec (length (List.filter (keepEdge text_) (edges page)))
                         (length (edges page))) as [Hlen | Hlen]; simpl.
  - apply filter_length_eq in Hlen. by rewrite Hlen, with_edges_same.
  - reflexivity.
Qed.

Lemma removeTemp_no_match (page : MessagePage) (log : list MessagePage)
    (text_ : string) :
  (∀ e, e ∈ edges page → ¬ evicted text_ e) →
  removeTempMessagesByText (mkCache (Some page) log) text_
  = mkCache (Some page) log.
Proof.
  intros Hnone. unfold removeTempMessagesByText. simpl.
  rewrite filter_all_true.
  - by rewrite Nat.eqb_refl.
  - intros e He. apply keepEdge_spec. by apply Hnone.
Qed.

Lemma elem_of_filter_bool {A : Type} (p : A → bool) (l : list A) (x : A) :
  x ∈ List.filter p l ↔ x ∈ l ∧ p x = true.
Proof. rewrite !list_elem_of_In. apply List.filter_In. Qed.

(** ** Filtering around an edge replaced in place *)

Lemma filter_split {A : Type} (p : A → bool) (l : list A) (i : nat) (y : A) :
  l !! i = Some y →
  List.filter p l
  = List.filter p (take i l) ++ (if p y then [y] else [])
    ++ List.filter p (drop (S i) l).
Proof.
  intros Hi. rewrite <- (take_drop_middle l i y Hi) at 1.
  rewrite List.filter_app. simpl. by destruct (p y).
Qed.

Lemma filter_insert {A : Type} (p : A → bool) (l : list A) (i : nat) (x y : A) :
  l !! i = Some y →
  List.filter p (<[i := x]> l)
  = List.filter p (take i l) ++ (if p x then [x] else [])
    ++ List.filter p (drop (S i) l).
Proof.
  intros Hi. rewrite insert_take_drop by (by eapply lookup_lt_Some).
  rewrite List.filter_app. simpl. by destruct (p x).
Qed.

Lemma filter_insert_outside {A : Type} (p : A → bool) (l : list A) (i : nat)
    (x y : A) :
  l !! i = Some y → p x = false → p y = false →
  List.filter p (<[i := x]> l) = List.filter p l.
Proof.
  intros Hi Hx Hy.
  rewrite (filter_insert p l i x y Hi), (filter_split p l i y Hi).
  by rewrite Hx, Hy.
Qed.

Lemma filter_insert_only {A : Type} (p : A → bool) (l : list A) (i : nat)
    (x y : A) :
  l !! i = Some y → p x = true → List.filter p l = [] →
  List.filter p (<[i := x]> l) = [x].
Proof.
  intros Hi Hx Hnone. rewrite (filter_insert p l i x y Hi), Hx.
  rewrite (filter_split p l i y Hi) in Hnone.
  apply app_eq_nil in Hnone as [-> Hrest].
  apply app_eq_nil in Hrest as [_ ->]. reflexivity.
Qed.

Lemma elem_of_insert_inv {A : Type} (l : list A) (i : nat) (x z : A) :
  z ∈ <[i := x]> l → z = x ∨ z ∈ l.
Proof.
  intros Hz. apply list_elem_of_lookup in Hz as [j Hj].
  destruct (decide (i = j)) as [-> | Hne].
  - left. assert (Hlt : (j < length l)%nat).
    { apply lookup_lt_Some in Hj. by rewrite length_insert in Hj. }
    rewrite list_lookup_insert_eq in Hj by exact Hlt. congruence.
  - right. rewrite list_lookup_insert_ne in Hj by exact Hne.
    by eapply list_elem_of_lookup_2.
Qed.

Lemma otherThan_false (ident : string) (e : MessageEdge) :
  id (node e) = ident → otherThan ident e = false.
Proof. intros <-. unfold otherThan. by rewrite String.eqb_refl. Qed.

(** ** Frame of the single-record operations *)

Section Frame.
Context `{Builtins}.

(** C10: frame property.  An upsert leaves [pageInfo] and the edges with
    another id as they were and in their order: the edge list is unchanged,
    or one edge with the incoming id has its node replaced, or one edge is
    appended at the end.  An eviction leaves [pageInfo] and the edges that do
    not match as they were and in their order; when no edge matches, or the
    store is absent, it does not write. *)
Theorem single_record_frame (page : MessagePage) (log : list MessagePage)
    (m : Message) (text_ : string) :
  let cache := mkCache (Some page) log in
  (∃ page',
     readQuery (upsertMessageInCache cache m) = Some page'
     ∧ pageInfo page' = pageInfo page
     ∧ page_typename page' = page_typename page
     ∧ List.filter (otherThan (id m)) (edges page')
       = List.filter (otherThan (id m)) (edges page)
     ∧ (edges page' = edges page
        ∨ (∃ i e, edges page !! i = Some e ∧ id (node e) = id m
                  ∧ edges page' = <[i := with_node e m]> (edges page))
        ∨ edges page' = edges page ++ [newEdge m]))
  ∧ (∃ page',
       readQuery (removeTempMessagesByText cache text_) = Some page'
       ∧ pageInfo page' = pageInfo page
       ∧ page_typename page' = page_typename page
       ∧ edges page' = List.filter (keepEdge text_) (edges page)
       ∧ (∀ e, keepEdge text_ e = true ↔ ¬ evicted text_ e))
  ∧ ((∀ e, e ∈ edges page → ¬ evicted text_ e) →
       removeTempMessagesByText cache text_ = cache)
  ∧ removeTempMessagesByText (mkCache None log) text_ = mkCache None log
  ∧ upsertMessageInCache (mkCache None log) m = mkCache None log.
Proof.
  intros cache. repeat split.
  - destruct (absent_or_first (edges page) (id m))
      as [Habsent | (i & e & Hfirst)].
    + exists (with_edges page (edges page ++ [newEdge m])).
      unfold cache. rewrite upsert_absent by exact Habsent.
      repeat split; simpl.
      * rewrite List.filter_app. simpl.
        rewrite otherThan_false by reflexivity. apply app_nil_r.
      * by right; right.
    + destruct (Date_lt (updatedAt m) (updatedAt (node e))) eqn:Hlt.
      * exists page. unfold cache.
        rewrite (upsert_stale _ _ _ _ _ Hfirst Hlt).
        repeat split. by left.
      * exists (with_edges page (<[i := with_node e m]> (edges page))).
        unfold cache. rewrite (upsert_fresh _ _ _ _ _ Hfirst Hlt).
        destruct Hfirst as (Hi & Hid & _).
        repeat split; simpl.
        -- apply (filter_insert_outside _ _ _ _ e Hi);
             by apply otherThan_false.
        -- right; left. by exists i, e.
  - exists (with_edges page (List.filter (keepEdge text_) (edges page))).
    unfold cache. rewrite removeTemp_data.
    repeat split; by apply keepEdge_spec.
  - intros Hnone. by apply removeTemp_no_match.
Qed.

End Frame.

(** ** Eviction followed by the upsert of the confirmed message *)

Section Eviction.
Context `{Builtins}.

Lemma removeTemp_then (page : MessagePage) (log : list MessagePage)
    (text_ : string) :
  ∃ log', removeTempMessagesByText (mkCache (Some page) log) text_
          = mkCache
              (Some (with_edges page (List.filter (keepEdge text_) (edges page))))
              log'.
Proof.
  pose proof (removeTemp_data page log text_) as Hdata.
  destruct (removeTempMessagesByText (mkCache (Some page) log) text_)
    as [d log'].
  exists log'. simpl in Hdata. by rewrite Hdata.
Qed.


End Eviction.

(** ** The record held for an id *)

Lemma find_absent (es : list MessageEdge) (ident : string) :
  (∀ e, e ∈ es → id (node e) ≠ ident) →
  List.find (fun e => String.eqb (id (node e)) ident) es = None.
Proof.
  induction es as [|x es IH]; intros Habsent; simpl; [reflexivity |].
  destruct (String.eqb_spec (id (node x)) ident) as [Heq | _].
  - exfalso. by apply (Habsent x); [left |].
  - apply IH. intros e He. apply Habsent. by right.
Qed.

Lemma find_first (es : list MessageEdge) (ident : string) (i : nat)
    (e : MessageEdge) :
  firstWithId es i e ident →
  List.find (fun e' => String.eqb (id (node e')) ident) es = Some e.
Proof.
  revert i. induction es as [|x es IH]; intros i (Hi & Hid & Hbefore).
  - discriminate.
  - simpl. destruct i as [|i]; simpl in *.
    + injection Hi as ->. by rewrite (proj2 (String.eqb_eq _ _) Hid).
    + inversion Hbefore as [|? ? Hx Hrest]; subst.
      rewrite (proj2 (String.eqb_neq _ _) Hx).
      apply (IH i). by repeat split.
Qed.

Lemma find_snoc_other {A : Type} (p : A → bool) (l : list A) (x : A) :
  p x = false → List.find p (l ++ [x]) = List.find p l.
Proof.
  intros Hx. induction l as [|y l IH]; simpl.
  - by rewrite Hx.
  - by destruct (p y).
Qed.

Lemma find_insert_other {A : Type} (p : A → bool) (l : list A) (i : nat)
    (x y : A) :
  l !! i = Some y → p x = false → p y = false →
  List.find p (<[i := x]> l) = List.find p l.
Proof.
  revert i. induction l as [|z l IH]; intros i Hi Hx Hy; [discriminate |].
  destruct i as [|i]; simpl in *.
  - injection Hi as ->. by rewrite Hx, Hy.
  - destruct (p z); [reflexivity |]. by apply IH.
Qed.

Section Freshness.
Context `{Builtins}.

(** One upsert arbitrates the record held for [ident], and only that. *)
Lemma upsert_arbitrates (ident : string) (page : MessagePage)
    (log : list MessagePage) (m : Message) :
  ∃ page' log',
    upsertMessageInCache (mkCache (Some page) log) m = mkCache (Some page') log'
    ∧ storedNode ident page' = arbitrate ident (storedNode ident page) m.
Proof.
  unfold storedNode, arbitrate.
  destruct (absent_or_first (edges page) (id m)) as [Habsent | (i & e & Hfirst)].
  - rewrite upsert_absent by exact Habsent.
    eexists _, _. split; [reflexivity |]. simpl.
    destruct (String.eqb_spec (id m) ident) as [<- | Hne].
    + rewrite (find_absent _ _ Habsent). simpl.
      pose proof (find_first _ _ _ _
                    (firstWithId_appended _ (newEdge m) Habsent)) as Hnew.
      simpl in Hnew. by rewrite Hnew.
    + rewrite find_snoc_other; [reflexivity |].
      simpl. by apply String.eqb_neq.
  - destruct (Date_lt (updatedAt m) (updatedAt (node e))) eqn:Hlt.
    + rewrite (upsert_stale _ _ _ _ _ Hfirst Hlt).
      eexists _, _. split; [reflexivity |].
      destruct (String.eqb_spec (id m) ident) as [<- | Hne]; [| reflexivity].
      rewrite (find_first _ _ _ _ Hfirst). simpl. by rewrite Hlt.
    + rewrite (upsert_fresh _ _ _ _ _ Hfirst Hlt).
      eexists _, _. split; [reflexivity |]. simpl.
      destruct (String.eqb_spec (id m) ident) as [<- | Hne].
      * rewrite (find_first _ _ _ _ Hfirst). simpl. rewrite Hlt.
        by rewrite (find_first _ _ i (with_node e m)
                      (firstWithId_insert _ _ _ (with_node e m) _ Hfirst eq_refl)).
      * destruct Hfirst as (Hi & Hid & _).
        rewrite (find_insert_other _ _ _ _ e Hi); [reflexivity | |].
        -- simpl. by apply String.eqb_neq.
        -- rewrite Hid. by apply String.eqb_neq.
Qed.

Lemma upserts_arbitrate (ident : string) (ms : list Message) :
  ∀ (page : MessagePage) (log : list MessagePage),
  ∃ page' log',
    upserts (mkCache (Some page) log) ms = mkCache (Some page') log'
    ∧ storedNode ident page'
      = fold_left (arbitrate ident) ms (storedNode ident page).
Proof.
  unfold upserts. induction ms as [|m ms IH]; intros page log; simpl.
  - by eexists _, _.
  - destruct (upsert_arbitrates ident page log m) as (page1 & log1 & -> & <-).
    apply IH.
Qed.

Lemma stored_upserts (ident : string) (page : MessagePage)
    (log : list MessagePage) (ms : list Message) :
  stored ident (upserts (mkCache (Some page) log) ms)
  = fold_left (arbitrate ident) ms (storedNode ident page).
Proof.
  destruct (upserts_arbitrate ident ms page log) as (page' & log' & -> & <-).
  reflexivity.
Qed.

Lemma applied_snoc (ident : string) (start : option Message)
    (ms : list Message) (m : Message) :
  applied ident start (ms ++ [m])
  = applied ident start ms ++ (if String.eqb (id m) ident then [m] else []).
Proof.
  unfold applied. rewrite List.filter_app, app_assoc. simpl.
  by destruct (String.eqb (id m) ident).
Qed.

Lemma Date_lt_instants (a b : Message) (ta tb : Z) :
  atInstant a ta → atInstant b tb →
  Date_lt (updatedAt a) (updatedAt b) = (ta <? tb).
Proof. unfold atInstant, Date_lt. by intros -> ->. Qed.

(** The record held after a sequence of arbitrations is the last of the
    applied updates that carry the greatest instant. *)
Lemma arbitrate_latest (ident : string) (start : option Message)
    (ms : list Message) :
  Forall wellDated (applied ident start ms) →
  match fold_left (arbitrate ident) ms start with
  | None => applied ident start ms = []
  | Some n =>
    ∃ t, atInstant n t
         ∧ (∀ c, c ∈ applied ident start ms → ∃ tc, atInstant c tc ∧ tc <= t)
         ∧ (∃ l1 l2, applied ident start ms = l1 ++ n :: l2
                     ∧ ∀ c, c ∈ l2 → ∃ tc, atInstant c tc ∧ tc < t)
  end.
Proof.
  induction ms as [|m ms IH] using rev_ind; intros Hdated.
  - simpl. unfold applied in *. simpl in *. rewrite app_nil_r in *.
    destruct start as [n|]; [| reflexivity].
    inversion Hdated as [|? ? [t Ht] _]; subst.
    exists t. split; [exact Ht |]. split.
    + intros c Hc. apply list_elem_of_singleton in Hc as ->.
      exists t. split; [exact Ht | lia].
    + exists [], []. split; [reflexivity |].
      intros c Hc. by apply elem_of_nil in Hc.
  - rewrite fold_left_app. simpl. rewrite applied_snoc in *.
    apply Forall_app in Hdated as [Hdated Hm]. specialize (IH Hdated).
    unfold arbitrate at 1.
    destruct (String.eqb (id m) ident); [| by rewrite app_nil_r].
    inversion Hm as [|? ? [tm Htm] _]; subst.
    destruct (fold_left (arbitrate ident) ms start) as [n|].
    + destruct IH as (t & Ht & Hbound & l1 & l2 & Hsplit & Hafter).
      rewrite (Date_lt_instants m n tm t Htm Ht).
      destruct (Z.ltb_spec tm t) as [Hlt | Hge].
      * exists t. split; [exact Ht |]. split.
        -- intros c Hc. apply elem_of_app in Hc as [Hc | Hc]; [by apply Hbound |].
           apply list_elem_of_singleton in Hc as ->.
           exists tm. split; [exact Htm | lia].
        -- exists l1, (l2 ++ [m]). split.
           ++ rewrite Hsplit. by rewrite <- app_assoc.
           ++ intros c Hc. apply elem_of_app in Hc as [Hc | Hc]; [by apply Hafter |].
              apply list_elem_of_singleton in Hc as ->. by exists tm.
      * exists tm. split; [exact Htm |]. split.
        -- intros c Hc. apply elem_of_app in Hc as [Hc | Hc].
           ++ destruct (Hbound c Hc) as (tc & Htc & Hle).
              exists tc. split; [exact Htc | lia].
           ++ apply list_elem_of_singleton in Hc as ->.
              exists tm. split; [exact Htm | lia].
        -- exists (applied ident start ms), []. split; [reflexivity |].
           intros c Hc. by apply elem_of_nil in Hc.
    + rewrite IH. simpl. exists tm. split; [exact Htm |]. split.
      * intros c Hc. apply list_elem_of_singleton in Hc as ->.
        exists tm. split; [exact Htm | lia].
      * exists [], []. split; [reflexivity |].
        intros c Hc. by apply elem_of_nil in Hc.
Qed.

Lemma applied_take (ident : string) (start : option Message)
    (ms : list Message) (k : nat) (c : Message) :
  c ∈ applied ident start (take k ms) → c ∈ applied ident start ms.
Proof.
  unfold applied. rewrite !elem_of_app, !elem_of_filter_bool.
  intros [Hc | [Hc Hid]]; [by left | right].
  split; [| exact Hid]. by apply (subseteq_take k ms).
Qed.

End Freshness.

Section FreshnessMonotonicity.
Context `{Builtins}.

(** C4: freshness monotonicity.  Over a sequence of upserts on a store, with
    well-formed timestamps on the updates applied to an id (the record the
    store holds for it at the start, if any, and the upserts of the sequence
    with that id): the record held at the end carries the greatest instant
    among them and is the last applied one that does; and the instant held
    after any prefix of the sequence is not later than the one held at the
    end. *)
Theorem freshness_monotonicity (page : MessagePage) (log : list MessagePage)
    (ident : string) (ms : list Message) :
  let cache := mkCache (Some page) log in
  let updates := applied ident (storedNode ident page) ms in
  Forall wellDated updates →
  updates ≠ [] →
  (∃ n t,
     stored ident (upserts cache ms) = Some n
     ∧ atInstant n t
     ∧ (∀ c, c ∈ updates → ∃ tc, atInstant c tc ∧ tc <= t)
     ∧ (∃ l1 l2, updates = l1 ++ n :: l2
                 ∧ ∀ c, c ∈ l2 → ∃ tc, atInstant c tc ∧ tc < t))
  ∧ (∀ k n1 t1,
       stored ident (upserts cache (take k ms)) = Some n1 →
       atInstant n1 t1 →
       ∃ n2 t2, stored ident (upserts cache ms) = Some n2
                ∧ atInstant n2 t2 ∧ t1 <= t2).
Proof.
  intros cache updates Hdated Hsome. unfold cache.
  pose proof (arbitrate_latest ident (storedNode ident page) ms Hdated) as Hend.
  rewrite <- (stored_upserts ident page log ms) in Hend.
  destruct (stored ident (upserts (mkCache (Some page) log) ms)) as [n|];
    [| contradiction].
  destruct Hend as (t & Ht & Hbound & Hlast).
  split.
  - exists n, t. by repeat split.
  - intros k n1 t1 Hprefix Ht1.
    assert (Hdated1 : Forall wellDated
                        (applied ident (storedNode ident page) (take k ms))).
    { apply Forall_forall. intros c Hc.
      apply (proj1 (Forall_forall _ _) Hdated). by eapply applied_take. }
    pose proof (arbitrate_latest ident (storedNode ident page) (take k ms)
                  Hdated1) as Hmid.
    rewrite <- (stored_upserts ident page log (take k ms)), Hprefix in Hmid.
    destruct Hmid as (t1' & Ht1' & _ & l1 & l2 & Hsplit & _).
    assert (Hin : n1 ∈ updates).
    { apply (applied_take ident _ ms k). rewrite Hsplit.
      apply elem_of_app. right. by left. }
    destruct (Hbound n1 Hin) as (tc & Htc & Hle).
    exists n, t. split; [reflexivity |]. split; [exact Ht |].
    unfold atInstant in *. congruence.
Qed.

End FreshnessMonotonicity.

(** ** Page merge *)

(** C5: forward page merge.  With an existing page and an incoming page
    fetched with an after-cursor, the merged edges are the existing ones
    followed by the incoming ones and the merged [pageInfo] is the incoming
    one; without an existing page the result is the incoming page. *)
Theorem forward_page_merge (existing incoming : MessagePage) (args : FieldArgs)
    (anyArgs : option FieldArgs) :
  (truthy (after args) = true →
     edges (merge (Some existing) incoming (Some args))
     = edges existing ++ edges incoming
     ∧ pageInfo (merge (Some existing) incoming (Some args)) = pageInfo incoming)
  ∧ merge None incoming anyArgs = incoming.
Proof.
  split; [| reflexivity].
  intros Hafter. unfold merge. simpl. by rewrite Hafter.
Qed.

(** C6: backward page merge.  With an existing page and an incoming page
    fetched with a before-cursor (and no after-cursor), the merged edges are
    the incoming ones followed by the existing ones; [hasNextPage] and
    [endCursor] are the existing ones, the other [pageInfo] fields the
    incoming ones. *)
Theorem backward_page_merge (existing incoming : MessagePage) (args : FieldArgs) :
  truthy (after args) = false →
  truthy (before args) = true →
  let merged := merge (Some existing) incoming (Some args) in
  edges merged = edges incoming ++ edges existing
  ∧ hasNextPage (pageInfo merged) = hasNextPage (pageInfo existing)
  ∧ endCursor (pageInfo merged) = endCursor (pageInfo existing)
  ∧ hasPreviousPage (pageInfo merged) = hasPreviousPage (pageInfo incoming)
  ∧ startCursor (pageInfo merged) = startCursor (pageInfo incoming)
  ∧ pageInfo_typename (pageInfo merged) = pageInfo_typename (pageInfo incoming).
Proof.
  intros Hafter Hbefore. unfold merge. simpl. rewrite Hafter, Hbefore.
  by repeat split.
Qed.

(** ** Submitting *)

Section Submit.
Context `{Builtins}.

(** C9: a text whose trimmed form is empty is not sent.  [sendMessage] of
    the send hook answers [null] and leaves the client as it was, no mutation
    issued and no write to the cache; [sendMessage] and [handleSubmit] of the
    chat hook return with the state unchanged, whatever the send operation
    would have done. *)
Theorem empty_submit_is_noop (text_ : string) :
  String_trim text_ = "" →
  (∀ outcome client,
     LibHooks.sendMessage text_ outcome client = (None, client))
  ∧ (∀ (W : Type) (send : string → W → Hooks.SendResult * W) s w,
       Hooks.sendMessage send text_ (s, w) = (s, w))
  ∧ (∀ (W : Type) (send : string → W → Hooks.SendResult * W) sending s w,
       Hooks.inputValue s = text_ →
       Hooks.handleSubmit send sending (s, w) = (s, w)).
Proof.
  intros Hempty. repeat split.
  - intros outcome client. unfold LibHooks.sendMessage. by rewrite Hempty.
  - intros W send s w. unfold Hooks.sendMessage. by rewrite Hempty.
  - intros W send sending s w Hinput. unfold Hooks.handleSubmit.
    by rewrite Hinput, Hempty.
Qed.

(** A text with something left after trimming does reach the mutation, with
    the trimmed text. *)
Lemma nonempty_submit_is_sent (text_ : string) (outcome : LibHooks.MutationOutcome)
    (client : LibHooks.Client) :
  String_trim text_ ≠ "" →
  LibHooks.mutations (snd (LibHooks.sendMessage text_ outcome client))
  = LibHooks.mutations client ++ [String_trim text_].
Proof.
  intros Hsome. unfold LibHooks.sendMessage, falsy.
  rewrite (proj2 (String.eqb_neq _ _) Hsome).
  by destruct outcome.
Qed.

End Submit.

(** ** The new-message counter of the chat hook *)

(** What [useChat] does on a created-event, whoever sent the message. *)
Lemma counter_follows_viewport (m : Message) (s : Hooks.ChatState) :
  Hooks.newMessagesCount (Hooks.onMessageAdded m s)
  = if Hooks.isAtBottom s then Hooks.newMessagesCount s
    else Hooks.newMessagesCount s + 1.
Proof. unfold Hooks.onMessageAdded. by destruct (Hooks.isAtBottom s). Qed.

Lemma counter_resets_at_bottom (s : Hooks.ChatState) :
  0 <= Hooks.newMessagesCount s →
  Hooks.newMessagesCount (Hooks.handleAtBottomChange true s) = 0
  ∧ Hooks.isAtBottom (Hooks.handleAtBottomChange true s) = true.
Proof.
  intros Hpos. unfold Hooks.handleAtBottomChange. simpl.
  destruct (Z.ltb_spec 0 (Hooks.newMessagesCount s)); simpl; split;
    try reflexivity; lia.
Qed.

(** C7, at the input where the code leaves the claim: away from the bottom,
    a created-event of the local actor (Admin) is counted like one of the
    customer. *)
Theorem counter_counts_local_sender :
  sender adminMessage = Admin
  ∧ Hooks.isAtBottom scrolledAway = false
  ∧ Hooks.newMessagesCount scrolledAway = 0
  ∧ Hooks.newMessagesCount (Hooks.onMessageAdded adminMessage scrolledAway) = 1
  ∧ Hooks.newMessagesCount (Hooks.onMessageAdded customerMessage scrolledAway) = 1
  ∧ Hooks.newMessagesCount
      (Hooks.handleAtBottomChange true
         (Hooks.onMessageAdded customerMessage scrolledAway)) = 0.
Proof. by repeat split. Qed.

(** ** The two subscription streams *)

Section Streams.
Context `{Builtins} {S : Type}.

(** In [widgets/chat/lib/hooks] both streams are the same upsert. *)
Lemma lib_streams_agree (added updated : option (Message → S → S))
    (client : ApolloCache) (s : S) (m : Message) :
  fst (LibHooks.handleNewMessage added (client, s) m)
  = fst (LibHooks.handleUpdatedMessage updated (client, s) m)
  ∧ fst (LibHooks.handleNewMessage added (client, s) m)
    = upsertMessageInCache client m.
Proof. by split. Qed.


Lemma hooks_created_known (added : option (Message → S → S))
    (page : MessagePage) (log : list MessagePage) (s : S) (m : Message)
    (i : nat) (e : MessageEdge) :
  firstWithId (edges page) i e (id m) →
  Hooks.handleNewMessage added (mkCache (Some page) log, s) m
  = (mkCache (Some page) log, s).
Proof.
  intros (Hi & Hid & _). unfold Hooks.handleNewMessage, some. simpl.
  assert (Hex : existsb (fun edge => String.eqb (id (node edge)) (id m))
                  (edges page) = true).
  { apply existsb_exists. exists e. split.
    - apply list_elem_of_In. by eapply list_elem_of_lookup_2.
    - by apply String.eqb_eq. }
  by rewrite Hex.
Qed.

End Streams.

(** ** The [update] callback of the send mutation *)

Lemma NoDup_map_filter {A B : Type} (f : A → B) (p : A → bool) (l : list A) :
  NoDup (map f l) → NoDup (map f (List.filter p l)).
Proof.
  induction l as [|x l IH]; simpl; intros Hnd; [exact Hnd |].
  apply NoDup_cons in Hnd as [Hx Hnd].
  destruct (p x); simpl; [| by apply IH].
  apply NoDup_cons. split; [| by apply IH].
  intros Hin. apply Hx.
  apply list_elem_of_In, in_map_iff in Hin as (y & Hy & Hin).
  apply list_elem_of_In, in_map_iff. exists y. split; [exact Hy |].
  apply List.filter_In in Hin. tauto.
Qed.

Lemma map_if_none {A : Type} (q : A → bool) (g : A → A) (l : list A) :
  (∀ x, x ∈ l → q x = false) →
  map (fun x => if q x then g x else x) l = l.
Proof.
  induction l as [|x l IH]; simpl; intros Hnone; [reflexivity |].
  rewrite Hnone by left. f_equal. apply IH. intros y Hy. apply Hnone. by right.
Qed.

Lemma map_if_only {A : Type} (q : A → bool) (g : A → A) (l : list A) (i : nat)
    (e : A) :
  l !! i = Some e → q e = true →
  (∀ j e', l !! j = Some e' → j ≠ i → q e' = false) →
  map (fun x => if q x then g x else x) l = <[i := g e]> l.
Proof.
  revert i. induction l as [|x l IH]; intros i Hi He Hothers; [discriminate |].
  destruct i as [|i]; simpl in *.
  - injection Hi as ->. rewrite He. f_equal. apply map_if_none.
    intros y Hy. apply list_elem_of_lookup in Hy as [j Hj].
    by apply (Hothers (S j)).
  - rewrite (Hothers 0%nat x) by done. f_equal. apply IH; [exact Hi | exact He |].
    intros j e' Hj Hne. apply (Hothers (S j)); [exact Hj | lia].
Qed.

Lemma unique_elsewhere (es : list MessageEdge) (i j : nat) (e e' : MessageEdge) :
  uniqueIds es → es !! i = Some e → es !! j = Some e' → j ≠ i →
  id (node e') ≠ id (node e).
Proof.
  intros Hnd Hi Hj Hne Heq. apply Hne.
  apply (NoDup_lookup _ j i (id (node e)) Hnd).
  - change (map (fun e0 => id (node e0)) es)
      with ((fun e0 => id (node e0)) <$> es).
    by rewrite list_lookup_fmap, Hj, <- Heq.
  - change (map (fun e0 => id (node e0)) es)
      with ((fun e0 => id (node e0)) <$> es).
    by rewrite list_lookup_fmap, Hi.
Qed.

Section MutationUpdate.
Context `{Builtins}.

Lemma Date_ge_lt (a b : Message) :
  wellDated a → wellDated b →
  Date_ge (updatedAt a) (updatedAt b) = negb (Date_lt (updatedAt a) (updatedAt b)).
Proof.
  intros [ta Ha] [tb Hb]. unfold Date_ge, Date_lt. rewrite Ha, Hb.
  destruct (Z.leb_spec tb ta), (Z.ltb_spec ta tb); simpl; try reflexivity; lia.
Qed.

(** X20: the [update] callback of [useSendMessage] inlines eviction and
    upsert.  On a store with one edge per id and valid timestamps on the
    confirmed id it leaves the data that [removeTempMessagesByText] followed
    by [upsertMessageInCache] leaves. *)
Lemma update_evicts_then_upserts (page : MessagePage) (log : list MessagePage)
    (m : Message) :
  uniqueIds (edges page) →
  wellDated m →
  (∀ e, e ∈ edges page → id (node e) = id m → wellDated (node e)) →
  readQuery (LibHooks.update (mkCache (Some page) log) (Some m))
  = readQuery (upsertMessageInCache
                 (removeTempMessagesByText (mkCache (Some page) log) (text m)) m).
Proof.
  intros Hunique Hm Hstored.
  destruct (removeTemp_then page log (text m)) as [log' ->].
  unfold LibHooks.update, some. simpl.
  change (List.filter _ (edges page))
    with (List.filter (keepEdge (text m)) (edges page)).
  set (kept := List.filter (keepEdge (text m)) (edges page)).
  assert (Hkept : uniqueIds kept) by (by apply NoDup_map_filter).
  destruct (absent_or_first kept (id m)) as [Habsent | (i & e & Hfirst)].
  - rewrite (upsert_absent (with_edges page kept)) by exact Habsent.
    assert (Hex : existsb (fun edge => String.eqb (id (node edge)) (id m)) kept
                  = false).
    { apply not_true_is_false. intros Hex.
      apply existsb_exists in Hex as (e & He & Heq).
      apply (Habsent e); [by apply list_elem_of_In | by apply String.eqb_eq]. }
    by rewrite Hex.
  - pose proof Hfirst as (Hi & Hid & _).
    assert (Hex : existsb (fun edge => String.eqb (id (node edge)) (id m)) kept
                  = true).
    { apply existsb_exists. exists e. split.
      - apply list_elem_of_In. by eapply list_elem_of_lookup_2.
      - by apply String.eqb_eq. }
    rewrite Hex. simpl.
    assert (He : wellDated (node e)).
    { apply Hstored; [| exact Hid]. apply list_elem_of_lookup_2 in Hi.
      by apply elem_of_filter_bool in Hi as [? _]. }
    pose proof (Date_ge_lt m (node e) Hm He) as Hge.
    destruct (Date_lt (updatedAt m) (updatedAt (node e))) eqn:Hlt.
    + rewrite (upsert_stale (with_edges page kept) _ _ _ _ Hfirst Hlt). simpl.
      f_equal. f_equal. apply (map_if_none _ (fun edge => with_node edge m)).
      intros e' He'. apply list_elem_of_lookup in He' as [j Hj].
      destruct (decide (j = i)) as [-> | Hne].
      * assert (e' = e) as -> by congruence.
        rewrite Hge. apply andb_false_r.
      * apply andb_false_iff. left. apply String.eqb_neq. rewrite <- Hid.
        by eapply unique_elsewhere.
    + rewrite (upsert_fresh (with_edges page kept) _ _ _ _ Hfirst Hlt). simpl.
      f_equal. f_equal.
      apply (map_if_only _ (fun edge => with_node edge m) _ _ _ Hi).
      * rewrite Hge. simpl. rewrite andb_true_r. by apply String.eqb_eq.
      * intros j e' Hj Hne. apply andb_false_iff. left.
        apply String.eqb_neq. rewrite <- Hid. by eapply unique_elsewhere.
Qed.

End MutationUpdate.

(** ** A created-event for an id the store holds *)

Section Deliveries.
Context `{Builtins} {S : Type}.







End Deliveries.

(** * The statements on concrete stores *)

(** The cases of [cache-utils.test.ts], run on the model. *)

Example test_upsert_into_empty_page :
  readQuery (@upsertMessageInCache runtime
               (mkCache (Some (createMockMessagePage [])) [])
               (createMockMessage "1" "New message" T1 Sent Customer))
  = Some (with_edges (createMockMessagePage [])
            [createMockMessageEdge
               (createMockMessage "1" "New message" T1 Sent Customer)]).
Proof. reflexivity. Qed.

Example test_upsert_ignores_older :
  let existing := createMockMessage "1" "Original text" T2 Sent Customer in
  let stale := createMockMessage "1" "Stale text" T1 Sent Customer in
  let cache := mkCache (Some (createMockMessagePage [existing])) [] in
  @upsertMessageInCache runtime cache stale = cache.
Proof. reflexivity. Qed.

Example test_upsert_missing_cache :
  @upsertMessageInCache runtime (mkCache None []) (message "1") = mkCache None [].
Proof. reflexivity. Qed.

Example test_remove_matching_temps :
  let permanent := createMockMessage "1" "Permanent message" T1 Sent Customer in
  let temp1 := createMockMessage "temp-123" "Temp message" T1 Sent Customer in
  let temp2 := createMockMessage "temp-456" "Another temp" T1 Sent Customer in
  let duplicate := createMockMessage "temp-789" "Temp message" T1 Sent Customer in
  let page := createMockMessagePage [permanent; temp1; temp2; duplicate] in
  edges <$> readQuery (removeTempMessagesByText (mkCache (Some page) [])
                         "Temp message")
  = Some (map createMockMessageEdge [permanent; temp2]).
Proof. reflexivity. Qed.

Example test_remove_keeps_permanent :
  let permanent := createMockMessage "1" "Shared text" T1 Sent Customer in
  let temp := createMockMessage "temp-123" "Shared text" T1 Sent Customer in
  let page := createMockMessagePage [permanent; temp] in
  edges <$> readQuery (removeTempMessagesByText (mkCache (Some page) [])
                         "Shared text")
  = Some [createMockMessageEdge permanent].
Proof. reflexivity. Qed.



Lemma upsert_by_freshness_witness :
  let page := createMockMessagePage [message "0"; newer7] in
  let cache := mkCache (Some page) [] in
  @upsertMessageInCache runtime cache (message "9")
  = writeQuery cache
      (with_edges page
         (map createMockMessageEdge [message "0"; newer7; message "9"]))
  ∧ @upsertMessageInCache runtime cache stored7 = cache
  ∧ @upsertMessageInCache runtime cache newest7
    = writeQuery cache (createMockMessagePage [message "0"; newest7]).
Proof.
  intros page cache.
  destruct (@upsert_by_freshness runtime page [] (message "9")) as [Habsent _].
  destruct (@upsert_by_freshness runtime page [] stored7) as [_ Hold].
  destruct (@upsert_by_freshness runtime page [] newest7) as [_ Hnew].
  split; [| split].
  - unfold cache. rewrite Habsent; [reflexivity |].
    intros e He. each_edge He; discriminate.
  - apply (Hold 1%nat (createMockMessageEdge newer7)); [first_edge | reflexivity].
  - unfold cache.
    destruct (Hnew 1%nat (createMockMessageEdge newer7)) as [_ Hfresh];
      [first_edge |].
    destruct (Hfresh eq_refl) as (-> & _). reflexivity.
Defined.

Lemma upsert_idempotent_witness :
  let page := createMockMessagePage [message "0"; newer7] in
  let cache := mkCache (Some page) [] in
  @Date_getTime runtime (updatedAt tied7) = @Date_getTime runtime (updatedAt newer7)
  ∧ readQuery (@upsertMessageInCache runtime cache tied7)
    = Some (createMockMessagePage [message "0"; tied7])
  ∧ readQuery (@upsertMessageInCache runtime
                 (@upsertMessageInCache runtime cache tied7) tied7)
    = readQuery (@upsertMessageInCache runtime cache tied7).
Proof.
  intros page cache.
  destruct (@upsert_idempotent runtime cache tied7) as [Htwice Htie].
  split; [reflexivity |]. split; [| exact Htwice].
  rewrite (Htie page 1%nat (createMockMessageEdge newer7));
    [reflexivity | reflexivity | first_edge | reflexivity].
Defined.

Lemma freshness_monotonicity_witness :
  let page := createMockMessagePage [message "0"; stored7] in
  let cache := mkCache (Some page) [] in
  let ms := [newer7; message "5"; newest7; stored7] in
  applied "7" (storedNode "7" page) ms = [stored7; newer7; newest7; stored7]
  ∧ (∃ n t,
       stored "7" (@upserts runtime cache ms) = Some n
       ∧ @atInstant runtime n t
       ∧ (∀ c, c ∈ applied "7" (storedNode "7" page) ms →
               ∃ tc, @atInstant runtime c tc ∧ tc <= t)
       ∧ (∃ l1 l2, applied "7" (storedNode "7" page) ms = l1 ++ n :: l2
                   ∧ ∀ c, c ∈ l2 → ∃ tc, @atInstant runtime c tc ∧ tc < t))
  ∧ stored "7" (@upserts runtime cache ms) = Some newest7.
Proof.
  intros page cache ms. split; [reflexivity |]. split; [| reflexivity].
  apply (@freshness_monotonicity runtime page [] "7" ms).
  - repeat (constructor; [by eexists |]). constructor.
  - discriminate.
Defined.

Lemma forward_page_merge_witness :
  truthy (after afterArgs) = true
  ∧ edges (merge (Some pageA) pageB (Some afterArgs))
    = map createMockMessageEdge
        [message "0"; message "1"; message "2"; message "3"; message "4"]
  ∧ pageInfo (merge (Some pageA) pageB (Some afterArgs)) = pageInfo pageB.
Proof.
  split; [reflexivity |].
  destruct (forward_page_merge pageA pageB afterArgs None) as [Hmerge _].
  destruct (Hmerge eq_refl) as [-> ->]. by split.
Defined.

Lemma backward_page_merge_witness :
  truthy (after beforeArgs) = false
  ∧ truthy (before beforeArgs) = true
  ∧ edges (merge (Some pageA) pageC (Some beforeArgs))
    = map createMockMessageEdge
        [message "8"; message "9"; message "0"; message "1"]
  ∧ hasNextPage (pageInfo (merge (Some pageA) pageC (Some beforeArgs))) = true
  ∧ endCursor (pageInfo (merge (Some pageA) pageC (Some beforeArgs)))
    = Some "cursor_1".
Proof.
  split; [reflexivity |]. split; [reflexivity |].
  destruct (backward_page_merge pageA pageC beforeArgs eq_refl eq_refl)
    as (-> & -> & -> & _).
  by repeat split.
Defined.

Lemma empty_submit_is_noop_witness :
  @String_trim runtime "   " = ""
  ∧ (∀ outcome client,
       @LibHooks.sendMessage runtime "   " outcome client = (None, client))
  ∧ (∀ send s w,
       @Hooks.sendMessage runtime (list string) send "   " (s, w) = (s, w)).
Proof.
  split; [reflexivity |].
  destruct (@empty_submit_is_noop runtime "   " eq_refl) as (Hsend & Hchat & _).
  split; [exact Hsend | exact (Hchat (list string))].
Defined.

Lemma single_record_frame_witness :
  let page := createMockMessagePage [tempHi; tempBye; tempHi] in
  (∀ e, e ∈ edges page → ¬ evicted "hello" e)
  ∧ removeTempMessagesByText pendingStore "hello" = pendingStore.
Proof.
  intros page.
  assert (Hnone : ∀ e, e ∈ edges page → ¬ evicted "hello" e).
  { intros e He [_ Htext]. each_edge He; discriminate. }
  split; [exact Hnone |].
  destruct (@single_record_frame runtime page [] confirmedHi "hello")
    as (_ & _ & Hquiet & _).
  by apply Hquiet.
Defined.

(** * Further properties of the cache functions *)

Lemma with_edges_twice (page : MessagePage) (es es' : list MessageEdge) :
  with_edges (with_edges page es) es' = with_edges page es'.
Proof. reflexivity. Qed.

Lemma filter_twice {A : Type} (p : A → bool) (l : list A) :
  List.filter p (List.filter p l) = List.filter p l.
Proof.
  induction l as [|x l IH]; simpl; [reflexivity |].
  destruct (p x) eqn:Hx; simpl; [| exact IH]. by rewrite Hx, IH.
Qed.

Lemma filter_swap {A : Type} (p q : A → bool) (l : list A) :
  List.filter p (List.filter q l) = List.filter q (List.filter p l).
Proof.
  induction l as [|x l IH]; simpl; [reflexivity |].
  destruct (p x) eqn:Hp, (q x) eqn:Hq; simpl; rewrite ?Hp, ?Hq, IH; reflexivity.
Qed.

Section EdgeListFacts.
Context `{Builtins}.

(** What an upsert leaves to read, on any cache. *)
Lemma upsert_read (c : ApolloCache) (m : Message) :
  readQuery (upsertMessageInCache c m)
  = (fun page => with_edges page (upsertEdges (edges page) m)) <$> readQuery c.
Proof.
  destruct c as [[page|] log]; [| reflexivity].
  unfold upsertMessageInCache, upsertEdges. simpl.
  destruct (findIndex _ (edges page)) as [i|]; [| reflexivity].
  destruct (edges page !! i) as [e|]; simpl; [| by rewrite with_edges_same].
  destruct (Date_lt _ _); simpl; [by rewrite with_edges_same | reflexivity].
Qed.

Lemma removeTemp_read (c : ApolloCache) (text_ : string) :
  readQuery (removeTempMessagesByText c text_)
  = (fun page => with_edges page (List.filter (keepEdge text_) (edges page)))
      <$> readQuery c.
Proof.
  destruct c as [[page|] log]; [| reflexivity]. apply removeTemp_data.
Qed.

Lemma upsertEdges_nil (m : Message) : upsertEdges [] m = [newEdge m].
Proof. reflexivity. Qed.

Lemma upsertEdges_cons (e : MessageEdge) (es : list MessageEdge) (m : Message) :
  upsertEdges (e :: es) m
  = if String.eqb (id (node e)) (id m)
    then (if Date_lt (updatedAt m) (updatedAt (node e))
          then e :: es else with_node e m :: es)
    else e :: upsertEdges es m.
Proof.
  unfold upsertEdges. simpl.
  destruct (String.eqb (id (node e)) (id m)); [reflexivity |].
  destruct (findIndex _ es) as [i|]; simpl; [| reflexivity].
  destruct (es !! i) as [e'|]; [| reflexivity].
  by destruct (Date_lt _ _).
Qed.

Lemma ids_upsertEdges (es : list MessageEdge) (m : Message) :
  ids (upsertEdges es m)
  = ids es ++ (if decide (id m ∈ ids es) then [] else [id m]).
Proof.
  induction es as [|e es IH].
  - rewrite upsertEdges_nil. simpl.
    destruct (decide (id m ∈ [])) as [Hin | _]; [| reflexivity].
    by apply elem_of_nil in Hin.
  - rewrite upsertEdges_cons. simpl.
    destruct (String.eqb_spec (id (node e)) (id m)) as [Heq | Hne].
    + destruct (decide (id m ∈ id (node e) :: ids es)) as [_ | Hnot].
      * rewrite app_nil_r. destruct (Date_lt _ _); simpl; [reflexivity |].
        by rewrite Heq.
      * exfalso. apply Hnot. rewrite Heq. by left.
    + simpl. fold (ids (upsertEdges es m)). rewrite IH. f_equal. f_equal.
      destruct (decide (id m ∈ ids es)) as [Hin | Hnot],
               (decide (id m ∈ id (node e) :: ids es)) as [Hin' | Hnot'];
        try reflexivity.
      * exfalso. apply Hnot'. by right.
      * exfalso. apply elem_of_cons in Hin' as [Heq | Hin']; [| done].
        by apply Hne.
Qed.

Lemma upsertEdges_commute (es : list MessageEdge) (m1 m2 : Message) :
  id m1 ≠ id m2 →
  id m1 ∈ ids es ∨ id m2 ∈ ids es →
  upsertEdges (upsertEdges es m1) m2 = upsertEdges (upsertEdges es m2) m1.
Proof.
  intros Hne. induction es as [|e es IH]; intros Hin.
  - destruct Hin as [Hin | Hin]; by apply elem_of_nil in Hin.
  - rewrite !(upsertEdges_cons e es).
    destruct (String.eqb_spec (id (node e)) (id m1)) as [H1 | H1],
             (String.eqb_spec (id (node e)) (id m2)) as [H2 | H2].
    + congruence.
    + rewrite (upsertEdges_cons e (upsertEdges es m2) m1).
      rewrite (proj2 (String.eqb_eq _ _) H1).
      destruct (Date_lt (updatedAt m1) (updatedAt (node e)));
        rewrite upsertEdges_cons; simpl.
      * by rewrite (proj2 (String.eqb_neq _ _) H2).
      * assert (Hne' : id m1 ≠ id m2) by exact Hne.
        by rewrite (proj2 (String.eqb_neq _ _) Hne').
    + rewrite (upsertEdges_cons e (upsertEdges es m1) m2).
      rewrite (proj2 (String.eqb_eq _ _) H2).
      destruct (Date_lt (updatedAt m2) (updatedAt (node e)));
        rewrite upsertEdges_cons; simpl.
      * by rewrite (proj2 (String.eqb_neq _ _) H1).
      * assert (Hne' : id m2 ≠ id m1) by congruence.
        by rewrite (proj2 (String.eqb_neq _ _) Hne').
    + rewrite (upsertEdges_cons e (upsertEdges es m1) m2).
      rewrite (upsertEdges_cons e (upsertEdges es m2) m1).
      rewrite (proj2 (String.eqb_neq _ _) H1), (proj2 (String.eqb_neq _ _) H2).
      f_equal. apply IH.
      destruct Hin as [Hin | Hin]; simpl in Hin;
        apply elem_of_cons in Hin as [Heq | Hin]; try congruence; tauto.
Qed.

Lemma keepEdge_server (text_ : string) (e : MessageEdge) :
  isTemp e = false → keepEdge text_ e = true.
Proof. unfold keepEdge. by intros ->. Qed.

Lemma filter_upsertEdges (text_ : string) (es : list MessageEdge) (m : Message) :
  String.prefix "temp-" (id m) = false →
  List.filter (keepEdge text_) (upsertEdges es m)
  = upsertEdges (List.filter (keepEdge text_) es) m.
Proof.
  intros Hserver. induction es as [|e es IH].
  - rewrite upsertEdges_nil. simpl.
    by rewrite (keepEdge_server text_ (newEdge m)).
  - rewrite upsertEdges_cons. simpl.
    destruct (String.eqb_spec (id (node e)) (id m)) as [Heq | Hne].
    + assert (Hke : keepEdge text_ e = true).
      { apply keepEdge_server. unfold isTemp. by rewrite Heq. }
      rewrite Hke, upsertEdges_cons, (proj2 (String.eqb_eq _ _) Heq).
      destruct (Date_lt _ _); simpl; [by rewrite Hke |].
      by rewrite (keepEdge_server text_ (with_node e m)).
    + simpl. destruct (keepEdge text_ e) eqn:Hke.
      * rewrite upsertEdges_cons, (proj2 (String.eqb_neq _ _) Hne).
        by rewrite IH.
      * exact IH.
Qed.

End EdgeListFacts.

(** ** Eviction followed by the upsert of the confirmed message, edge by edge *)

Section EvictionThenUpsert.
Context `{Builtins}.






End EvictionThenUpsert.


Section CacheFunctions.
Context `{Builtins}.

Lemma upsertEdges_absent (es : list MessageEdge) (m : Message) :
  id m ∉ ids es → upsertEdges es m = es ++ [newEdge m].
Proof.
  induction es as [|e es IH]; intros Hnot; [reflexivity |].
  rewrite upsertEdges_cons. simpl in Hnot.
  apply not_elem_of_cons in Hnot as [Hne Hnot].
  assert (Hne' : id (node e) ≠ id m) by congruence.
  rewrite (proj2 (String.eqb_neq _ _) Hne'). simpl. by rewrite IH.
Qed.

(** X1: an upsert keeps the sequence of ids when the incoming id is in the
    store and extends it by the incoming id when it is not; a store with one
    edge per id stays so. *)
Theorem upsert_id_sequence (page : MessagePage) (log : list MessagePage)
    (m : Message) :
  ∃ page',
    readQuery (upsertMessageInCache (mkCache (Some page) log) m) = Some page'
    ∧ (id m ∈ ids (edges page) → ids (edges page') = ids (edges page))
    ∧ (id m ∉ ids (edges page) → ids (edges page') = ids (edges page) ++ [id m])
    ∧ (uniqueIds (edges page) → uniqueIds (edges page')).
Proof.
  exists (with_edges page (upsertEdges (edges page) m)).
  split; [by rewrite upsert_read |]. simpl.
  pose proof (ids_upsertEdges (edges page) m) as Hids.
  destruct (decide (id m ∈ ids (edges page))) as [Hin | Hnot].
  - rewrite app_nil_r in Hids. split; [done |]. split; [done |].
    intros Hunique. unfold uniqueIds.
    change (NoDup (ids (upsertEdges (edges page) m))). by rewrite Hids.
  - split; [done |]. split; [done |].
    intros Hunique. unfold uniqueIds.
    change (NoDup (ids (upsertEdges (edges page) m))). rewrite Hids.
    apply NoDup_app. split; [exact Hunique |]. split.
    + intros x Hx Hx'. apply list_elem_of_singleton in Hx' as ->. done.
    + apply NoDup_singleton.
Qed.

(** X2: looking a record up after an upsert.  The record held for another
    id is the one held before; for the incoming id the store holds the
    incoming message, unless it held a strictly newer one, which it keeps. *)
Theorem upsert_then_lookup (page : MessagePage) (log : list MessagePage)
    (m : Message) (ident : string) :
  let c := mkCache (Some page) log in
  (ident ≠ id m → stored ident (upsertMessageInCache c m) = stored ident c)
  ∧ (stored (id m) c = None →
     stored (id m) (upsertMessageInCache c m) = Some m)
  ∧ (∀ n, stored (id m) c = Some n →
          stored (id m) (upsertMessageInCache c m)
          = Some (if Date_lt (updatedAt m) (updatedAt n) then n else m)).
Proof.
  intros c. unfold c. repeat split.
  - intros Hne.
    destruct (upsert_arbitrates ident page log m) as (page' & log' & -> & Hst).
    unfold stored. simpl. rewrite Hst. unfold arbitrate.
    assert (Hne' : id m ≠ ident) by congruence.
    by rewrite (proj2 (String.eqb_neq _ _) Hne').
  - intros Hnone.
    destruct (upsert_arbitrates (id m) page log m) as (page' & log' & -> & Hst).
    unfold stored in *. simpl in *. rewrite Hst, Hnone. unfold arbitrate.
    by rewrite String.eqb_refl.
  - intros n Hn.
    destruct (upsert_arbitrates (id m) page log m) as (page' & log' & -> & Hst).
    unfold stored in *. simpl in *. rewrite Hst, Hn. unfold arbitrate.
    rewrite String.eqb_refl. by destruct (Date_lt _ _).
Qed.

(** X3: upserts of two different ids commute as soon as one of the ids is
    in the store; when neither is, each order appends its own way round. *)
Theorem upserts_of_distinct_ids_commute (page : MessagePage)
    (log : list MessagePage) (m1 m2 : Message) :
  let c := mkCache (Some page) log in
  id m1 ≠ id m2 →
  (id m1 ∈ ids (edges page) ∨ id m2 ∈ ids (edges page) →
   readQuery (upsertMessageInCache (upsertMessageInCache c m1) m2)
   = readQuery (upsertMessageInCache (upsertMessageInCache c m2) m1))
  ∧ (id m1 ∉ ids (edges page) → id m2 ∉ ids (edges page) →
     readQuery (upsertMessageInCache (upsertMessageInCache c m1) m2)
     = Some (with_edges page (edges page ++ [newEdge m1; newEdge m2]))
     ∧ readQuery (upsertMessageInCache (upsertMessageInCache c m2) m1)
       = Some (with_edges page (edges page ++ [newEdge m2; newEdge m1]))).
Proof.
  intros c Hne. unfold c. rewrite !upsert_read. simpl. split.
  - intros Hin. by rewrite upsertEdges_commute.
  - intros Hn1 Hn2.
    assert (Hstep : ∀ a b, id a ≠ id b → id a ∉ ids (edges page) →
              id b ∉ ids (edges page) →
              upsertEdges (upsertEdges (edges page) a) b
              = edges page ++ [newEdge a; newEdge b]).
    { intros a b Hab Ha Hb. rewrite (upsertEdges_absent _ a Ha).
      rewrite upsertEdges_absent.
      - by rewrite <- app_assoc.
      - unfold ids. rewrite map_app. simpl. intros Hin.
        apply elem_of_app in Hin as [Hin | Hin]; [by apply Hb |].
        apply list_elem_of_singleton in Hin. congruence. }
    rewrite (Hstep m1 m2), (Hstep m2 m1); done.
Qed.

(** X4: an eviction run a second time with the same text writes nothing,
    and evictions for two texts leave the same data in either order. *)
Theorem eviction_repeated_is_quiet (c : ApolloCache) (t t' : string) :
  removeTempMessagesByText (removeTempMessagesByText c t) t
  = removeTempMessagesByText c t
  ∧ readQuery (removeTempMessagesByText (removeTempMessagesByText c t) t')
    = readQuery (removeTempMessagesByText (removeTempMessagesByText c t') t).
Proof.
  split.
  - destruct c as [[page|] log]; [| reflexivity].
    unfold removeTempMessagesByText at 2. simpl.
    destruct (Nat.eqb_spec (length (List.filter (keepEdge t) (edges page)))
                           (length (edges page))) as [Hlen | Hlen].
    + unfold removeTempMessagesByText. simpl.
      by rewrite (proj2 (Nat.eqb_eq _ _) Hlen).
    + unfold removeTempMessagesByText, writeQuery. simpl.
      rewrite filter_twice, Nat.eqb_refl.
      by rewrite (proj2 (Nat.eqb_neq _ _) Hlen).
  - rewrite !removeTemp_read.
    destruct (readQuery c) as [page|]; [| reflexivity]. simpl.
    by rewrite filter_swap.
Qed.

(** X5: for a message with a server id, eviction and upsert leave the same
    data in either order. *)
Theorem eviction_commutes_with_upsert (c : ApolloCache) (t : string)
    (m : Message) :
  String.prefix "temp-" (id m) = false →
  readQuery (removeTempMessagesByText (upsertMessageInCache c m) t)
  = readQuery (upsertMessageInCache (removeTempMessagesByText c t) m).
Proof.
  intros Hserver. rewrite removeTemp_read, !upsert_read, removeTemp_read.
  destruct (readQuery c) as [page|]; [| reflexivity]. simpl.
  by rewrite filter_upsertEdges.
Qed.

(** X6: an eviction, whatever the text, keeps every edge with a server id,
    in order, never adds an edge, and keeps a store with one edge per id
    so. *)
Theorem eviction_spares_server_edges (page : MessagePage)
    (log : list MessagePage) (t : string) :
  ∃ page',
    readQuery (removeTempMessagesByText (mkCache (Some page) log) t) = Some page'
    ∧ List.filter (fun e => negb (isTemp e)) (edges page')
      = List.filter (fun e => negb (isTemp e)) (edges page)
    ∧ (length (edges page') <= length (edges page))%nat
    ∧ (uniqueIds (edges page) → uniqueIds (edges page')).
Proof.
  exists (with_edges page (List.filter (keepEdge t) (edges page))).
  split; [apply removeTemp_data |]. simpl. split; [| split].
  - induction (edges page) as [|e es IH]; simpl; [reflexivity |].
    unfold keepEdge at 1. destruct (isTemp e) eqn:Htemp; simpl.
    + destruct (String.eqb _ _); simpl; [exact IH |]. by rewrite Htemp.
    + rewrite Htemp. simpl. by rewrite IH.
  - apply List.filter_length_le.
  - apply NoDup_map_filter.
Qed.

End CacheFunctions.

(** * The update callback, the subscription handlers and the field policy *)

Lemma absent_iff (es : list MessageEdge) (ident : string) :
  (∀ e, e ∈ es → id (node e) ≠ ident) ↔ ident ∉ ids es.
Proof.
  unfold ids. split.
  - intros Habsent Hin.
    apply list_elem_of_In, in_map_iff in Hin as (e & Hid & He).
    apply (Habsent e); [by apply list_elem_of_In | exact Hid].
  - intros Hnot e He Hid. apply Hnot.
    apply list_elem_of_In, in_map_iff. exists e.
    split; [exact Hid | by apply list_elem_of_In].
Qed.

Lemma existsb_id (es : list MessageEdge) (ident : string) :
  existsb (fun edge => String.eqb (id (node edge)) ident) es
  = bool_decide (ident ∈ ids es).
Proof.
  induction es as [|e es IH].
  - symmetry. apply bool_decide_eq_false_2. apply not_elem_of_nil.
  - cbn [existsb ids map]. fold (ids es). rewrite IH. destruct (String.eqb_spec (id (node e)) ident) as [<- | Hne].
    + symmetry. apply bool_decide_eq_true_2. by left.
    + simpl. apply bool_decide_ext. rewrite elem_of_cons.
      split; [by right | intros [Heq | Hin]; [congruence | done]].
Qed.

Section UpdateCallback.
Context `{Builtins}.

(** X7: what the [update] callback of the send mutation does on a store
    that holds data.  It writes once, also when nothing changes; the page it
    writes has the [pageInfo] it read, holds the confirmed id, holds the
    edges of other ids that survive the eviction, unchanged and in order,
    and, for a server id, holds no temporary edge with the confirmed text. *)
Theorem update_effect (page : MessagePage) (log : list MessagePage)
    (sent : Message) :
  ∃ page',
    LibHooks.update (mkCache (Some page) log) (Some sent)
    = mkCache (Some page') (log ++ [page'])
    ∧ pageInfo page' = pageInfo page
    ∧ id sent ∈ ids (edges page')
    ∧ List.filter (otherThan (id sent)) (edges page')
      = List.filter (otherThan (id sent))
          (List.filter (keepEdge (text sent)) (edges page))
    ∧ (String.prefix "temp-" (id sent) = false →
       ∀ e, e ∈ edges page' → ¬ evicted (text sent) e).
Proof.
  unfold LibHooks.update, some, writeQuery. simpl.
  change (List.filter _ (edges page))
    with (List.filter (keepEdge (text sent)) (edges page)).
  set (kept := List.filter (keepEdge (text sent)) (edges page)).
  assert (Hkept : ∀ e, e ∈ kept → ¬ evicted (text sent) e).
  { intros e He. apply elem_of_filter_bool in He as [_ Hkeep].
    by apply keepEdge_spec. }
  eexists. split; [reflexivity |]. simpl. split; [reflexivity |].
  rewrite existsb_id.
  destruct (bool_decide_reflect (id sent ∈ ids kept)) as [Hin | Hnot]; simpl.
  - set (f := fun edge : MessageEdge =>
                if String.eqb (id (node edge)) (id sent)
                   && Date_ge (updatedAt sent) (updatedAt (node edge))
                then with_node edge sent else edge).
    assert (Hids : ∀ l, ids (map f l) = ids l).
    { induction l as [|e l IH]; simpl; [reflexivity |]. rewrite IH. f_equal.
      unfold f. destruct (String.eqb_spec (id (node e)) (id sent)) as [Heq|];
        [| reflexivity].
      by destruct (Date_ge _ _). }
    assert (Hother : ∀ l, List.filter (otherThan (id sent)) (map f l)
                          = List.filter (otherThan (id sent)) l).
    { induction l as [|e l IH]; simpl; [reflexivity |]. rewrite IH.
      unfold f at 1 2.
      destruct (String.eqb_spec (id (node e)) (id sent)) as [Heq | Hne]; simpl;
        [| reflexivity].
      rewrite (otherThan_false _ e Heq).
      destruct (Date_ge _ _); [| by rewrite (otherThan_false _ e Heq)].
      by rewrite (otherThan_false _ (with_node e sent)). }
    split; [by rewrite Hids |]. split; [apply Hother |].
    intros Hserver e He.
    {
      apply list_elem_of_In, in_map_iff in He as (e0 & <- & He0).
      apply list_elem_of_In in He0. unfold f.
      destruct (_ && _); [| by apply Hkept].
      intros [Htemp _]. unfold isTemp in Htemp. simpl in Htemp. congruence. }
  - split; [| split].
    + unfold ids. rewrite map_app. apply elem_of_app. right. by left.
    + rewrite List.filter_app. simpl.
      rewrite (otherThan_false _ (newEdge sent)) by reflexivity.
      apply app_nil_r.
    + intros Hserver e He. apply elem_of_app in He as [He | He].
      * by apply Hkept.
      * apply list_elem_of_singleton in He as ->.
        intros [Htemp _]. unfold isTemp in Htemp. simpl in Htemp. congruence.
Qed.

End UpdateCallback.

Section LegacyStreams.
Context `{Builtins} {S : Type}.

(** X8: the handlers of [widgets/chat/hooks] against the upsert.  For an id
    the store does not hold, the created handler is the upsert (and calls
    back) and the updated handler does nothing; for an id the store holds,
    the created handler does nothing and the updated handler is the upsert,
    calling back unless the update is stale. *)
Theorem legacy_streams_against_upsert (added updated : option (Message → S → S))
    (page : MessagePage) (log : list MessagePage) (s : S) (m : Message) :
  let c := mkCache (Some page) log in
  (id m ∉ ids (edges page) →
     Hooks.handleNewMessage added (c, s) m
     = (upsertMessageInCache c m, call added m s)
     ∧ Hooks.handleUpdatedMessage updated (c, s) m = (c, s))
  ∧ (∀ n, storedNode (id m) page = Some n →
       Hooks.handleNewMessage added (c, s) m = (c, s)
       ∧ Hooks.handleUpdatedMessage updated (c, s) m
         = (upsertMessageInCache c m,
            if Date_lt (updatedAt m) (updatedAt n) then s
            else call updated m s)).
Proof.
  intros c. unfold c. split.
  - intros Hnot. pose proof (proj2 (absent_iff _ _) Hnot) as Habsent.
    rewrite (upsert_absent _ _ _ Habsent).
    unfold Hooks.handleNewMessage, Hooks.handleUpdatedMessage, some. simpl.
    rewrite existsb_id, (bool_decide_eq_false_2 _ Hnot). simpl.
    by rewrite (findIndex_absent _ _ Habsent).
  - intros n Hn.
    destruct (absent_or_first (edges page) (id m))
      as [Habsent | (i & e & Hfirst)].
    { unfold storedNode in Hn. by rewrite (find_absent _ _ Habsent) in Hn. }
    assert (n = node e) as ->.
    { unfold storedNode in Hn. rewrite (find_first _ _ _ _ Hfirst) in Hn.
      simpl in Hn. congruence. }
    split; [by eapply hooks_created_known |].
    unfold Hooks.handleUpdatedMessage, upsertMessageInCache. simpl.
    rewrite (findIndex_first _ _ _ _ Hfirst). destruct Hfirst as (-> & _).
    by destruct (Date_lt _ _).
Qed.

End LegacyStreams.

(** X9: the field policy does not deduplicate.  When the ids of the two
    pages are apart and each page has one edge per id, so has the merged
    page; when a cursor is given and the pages share an id, the merged page
    holds it twice.  With a cursor the merged page has every edge of both
    pages. *)
Theorem merge_and_unique_ids (existing incoming : MessagePage)
    (args : option FieldArgs) :
  let merged := merge (Some existing) incoming args in
  (uniqueIds (edges existing) → uniqueIds (edges incoming) →
   (∀ x, x ∈ ids (edges existing) → x ∉ ids (edges incoming)) →
   uniqueIds (edges merged))
  ∧ (truthy (args ≫= after) || truthy (args ≫= before) = true →
     length (edges merged)
     = (length (edges existing) + length (edges incoming))%nat
     ∧ ∀ x, x ∈ ids (edges existing) → x ∈ ids (edges incoming) →
            ¬ uniqueIds (edges merged)).
Proof.
  intros merged. unfold merged, merge, uniqueIds. split.
  - intros Hex Hin Hapart.
    destruct (truthy (args ≫= after)); simpl.
    + rewrite map_app. apply NoDup_app. by repeat split.
    + destruct (truthy (args ≫= before)); simpl; [| exact Hin].
      rewrite map_app. apply NoDup_app. repeat split; try done.
      intros x Hx Hx'. by apply (Hapart x).
  - intros Hcursor.
    destruct (truthy (args ≫= after)); simpl.
    + split; [apply length_app |].
      intros x Hx Hx' Hnd. rewrite map_app in Hnd.
      apply NoDup_app in Hnd as (_ & Hapart & _). by apply (Hapart x).
    + simpl in Hcursor. rewrite Hcursor. simpl.
      split; [rewrite length_app; lia |].
      intros x Hx Hx' Hnd. rewrite map_app in Hnd.
      apply NoDup_app in Hnd as (_ & Hapart & _). by apply (Hapart x).
Qed.

(** * The resolver of the server and the pagination of the client *)

Lemma slice_from {A : Type} (l : list A) (a : nat) :
  Server.slice l (Z.of_nat a) (Z.of_nat (length l)) = drop a l.
Proof.
  unfold Server.slice.
  destruct (Z.ltb_spec (Z.of_nat a) 0) as [Hneg | _]; [lia |].
  destruct (Z.ltb_spec (Z.of_nat (length l)) 0) as [Hneg | _]; [lia |].
  rewrite Z.min_id.
  destruct (decide (a ≤ length l)%nat) as [Hle | Hgt].
  - rewrite Z.min_l by lia. rewrite Nat2Z.id.
    apply take_ge. rewrite length_drop. lia.
  - rewrite Z.min_r by lia. rewrite Nat2Z.id.
    rewrite (drop_ge l a) by lia. rewrite drop_ge by lia. apply take_nil.
Qed.

Lemma slice_first {A : Type} (l : list A) (n : Z) :
  0 < n → Server.slice l 0 n = take (Z.to_nat n) l.
Proof.
  intros Hn. unfold Server.slice.
  change (0 <? 0) with false. cbv iota.
  destruct (Z.ltb_spec n 0) as [Hneg | _]; [lia |].
  rewrite (Z.min_l 0) by lia. change (Z.to_nat 0) with 0%nat.
  rewrite drop_0, Z.sub_0_r.
  destruct (decide (n <= Z.of_nat (length l))) as [Hle | Hgt].
  - by rewrite Z.min_l by lia.
  - rewrite Z.min_r by lia. rewrite Nat2Z.id.
    rewrite !take_ge by lia. reflexivity.
Qed.

Lemma findIndex_id (db : list Message) (k : nat) (m : Message) :
  NoDup (map id db) → db !! k = Some m →
  findIndex (fun msg => String.eqb (id msg) (id m)) db = Some k.
Proof.
  intros Hnd Hk. apply findIndex_Some. exists m.
  split; [exact Hk |]. split; [apply String.eqb_refl |].
  apply Forall_forall. intros y Hy.
  apply elem_of_take in Hy as (j & Hj & Hlt).
  apply String.eqb_neq. intros Heq.
  assert (j = k); [| lia].
  apply (NoDup_lookup _ j k (id m) Hnd).
  - change (map id db) with (id <$> db).
    by rewrite list_lookup_fmap, Hj, <- Heq.
  - change (map id db) with (id <$> db). by rewrite list_lookup_fmap, Hk.
Qed.

Lemma findIndex_unknown (db : list Message) (a : string) :
  a ∉ map id db →
  findIndex (fun msg => String.eqb (id msg) a) db = None.
Proof.
  intros Hnot. apply findIndex_None, Forall_forall. intros y Hy.
  apply String.eqb_neq. intros Heq. apply Hnot.
  apply list_elem_of_In, in_map_iff. exists y.
  split; [exact Heq | by apply list_elem_of_In].
Qed.

(** The page the resolver answers after a known cursor. *)
Lemma resolver_after (db : list Message) (n : Z) (k : nat) (m : Message) :
  NoDup (map id db) → db !! k = Some m → id m ≠ "" → 0 < n →
  Server.messages db {| first := Some n; after := Some (id m); before := None |}
  = let window := take (Z.to_nat n) (drop (S k) db) in
    {| page_typename := None;
       edges := map Server.edgeOf window;
       pageInfo :=
         {| pageInfo_typename := None;
            hasNextPage := n <? Z.of_nat (length (drop (S k) db));
            hasPreviousPage := true;
            startCursor := cursor <$> head (map Server.edgeOf window);
            endCursor := cursor <$> last (map Server.edgeOf window) |} |}.
Proof.
  intros Hnd Hk Hid Hn. unfold Server.messages. cbn [first after before].
  unfold falsy. rewrite (proj2 (String.eqb_neq _ _) Hid). cbn [negb].
  rewrite (findIndex_id db k m Hnd Hk). cbn [Server.indexOf].
  replace (Z.of_nat k + 1) with (Z.of_nat (S k)) by lia.
  rewrite slice_from.
  assert (Hten : Server.orTen (Some n) = n).
  { unfold Server.orTen. destruct (Z.eqb_spec n 0); [lia | reflexivity]. }
  rewrite Hten, slice_first by exact Hn.
  rewrite Z.ltb_irrefl. cbn [orb].
  destruct (Z.leb_spec 0 (Z.of_nat k)); [reflexivity | lia].
Qed.

(** The page the resolver answers without a cursor. *)
Lemma resolver_start (db : list Message) (n : Z) :
  0 < n →
  Server.messages db {| first := Some n; after := None; before := None |}
  = let window := take (Z.to_nat n) db in
    {| page_typename := None;
       edges := map Server.edgeOf window;
       pageInfo :=
         {| pageInfo_typename := None;
            hasNextPage := n <? Z.of_nat (length db);
            hasPreviousPage := false;
            startCursor := cursor <$> head (map Server.edgeOf window);
            endCursor := cursor <$> last (map Server.edgeOf window) |} |}.
Proof.
  intros Hn. unfold Server.messages. cbn [first after before].
  change (-1 + 1) with (Z.of_nat 0). rewrite slice_from. rewrite drop_0.
  assert (Hten : Server.orTen (Some n) = n).
  { unfold Server.orTen. destruct (Z.eqb_spec n 0); [lia | reflexivity]. }
  rewrite Hten, slice_first by exact Hn.
  by rewrite Z.ltb_irrefl.
Qed.

Lemma nodes_of_edges (w : list Message) : map node (map Server.edgeOf w) = w.
Proof. induction w as [|x w IH]; simpl; [reflexivity | by rewrite IH]. Qed.

Lemma last_cursor (w : list Message) :
  cursor <$> last (map Server.edgeOf w) = id <$> last w.
Proof.
  induction w as [|x w IH]; [reflexivity |].
  destruct w as [|y w]; [reflexivity |]. exact IH.
Qed.

Lemma head_cursor (w : list Message) :
  cursor <$> head (map Server.edgeOf w) = id <$> head w.
Proof. by destruct w. Qed.

(** X10: the window of the resolver.  Over a message list with one message
    per id, the page asked after the cursor of the message at index [k] holds
    the next [first] messages in order, each under its id as cursor; it has a
    previous page, and a next page exactly when messages are left beyond it;
    its start and end cursors are the ids of its first and last message. *)
Theorem resolver_window (db : list Message) (n : Z) (k : nat) (m : Message) :
  NoDup (map id db) → db !! k = Some m → id m ≠ "" → 0 < n →
  let page :=
    Server.messages db
      {| first := Some n; after := Some (id m); before := None |} in
  let window := take (Z.to_nat n) (drop (S k) db) in
  map node (edges page) = window
  ∧ map cursor (edges page) = map id window
  ∧ hasPreviousPage (pageInfo page) = true
  ∧ hasNextPage (pageInfo page)
    = bool_decide (S k + Z.to_nat n < length db)%nat
  ∧ startCursor (pageInfo page) = id <$> head window
  ∧ endCursor (pageInfo page) = id <$> last window.
Proof.
  intros Hnd Hk Hid Hn page window. unfold page.
  rewrite (resolver_after db n k m Hnd Hk Hid Hn). simpl.
  fold window. rewrite nodes_of_edges, head_cursor, last_cursor.
  repeat split.
  - induction window as [|x w IH]; simpl; [reflexivity | by rewrite IH].
  - rewrite length_drop.
    destruct (Z.ltb_spec n (Z.of_nat (length db - S k))) as [Hlt | Hge];
      symmetry; [apply bool_decide_eq_true_2 | apply bool_decide_eq_false_2];
      lia.
Qed.

Lemma slice_to_minus_one {A : Type} (l : list A) (start : Z) :
  l ≠ [] →
  Server.slice l start (-1) = Server.slice l start (Z.of_nat (length l) - 1).
Proof.
  intros Hne. assert (0 < length l)%nat by (destruct l; simpl; [done | lia]).
  unfold Server.slice. change (-1 <? 0) with true. cbv iota.
  destruct (Z.ltb_spec (Z.of_nat (length l) - 1) 0) as [Hneg | _]; [lia |].
  rewrite Z.max_l by lia. rewrite (Z.min_l (Z.of_nat (length l) - 1)) by lia.
  reflexivity.
Qed.

(** X11: cursors and page sizes the resolver cannot use.  An after-cursor
    that matches no message gives the page of no after-cursor at all; a
    before-cursor that matches no message gives the page of a before-cursor
    set on the last message, which leaves that message out; a missing page
    size or a page size of 0 gives the page of size 10. *)
Theorem resolver_unusable_arguments (db : list Message) (f : option Z)
    (a b : string) (af bf : option string) :
  (a ∉ map id db →
     Server.messages db {| first := f; after := Some a; before := bf |}
     = Server.messages db {| first := f; after := None; before := bf |})
  ∧ (b ∉ map id db → b ≠ "" → NoDup (map id db) →
     ∀ l, last db = Some l → id l ≠ "" →
       Server.messages db {| first := f; after := af; before := Some b |}
       = Server.messages db {| first := f; after := af; before := Some (id l) |})
  ∧ Server.messages db {| first := None; after := af; before := bf |}
    = Server.messages db {| first := Some 10; after := af; before := bf |}
  ∧ Server.messages db {| first := Some 0; after := af; before := bf |}
    = Server.messages db {| first := Some 10; after := af; before := bf |}.
Proof.
  split; [| split; [| by split]].
  - intros Hnot. unfold Server.messages. cbn [first after before].
    rewrite (findIndex_unknown db a Hnot). by destruct (negb (falsy a)).
  - intros Hnot Hb Hnd l Hlast Hl.
    assert (Hne : db ≠ []) by (intros ->; discriminate).
    assert (Hk : db !! pred (length db) = Some l) by (by rewrite <- last_lookup).
    unfold Server.messages. cbn [first after before].
    unfold falsy. rewrite (proj2 (String.eqb_neq _ _) Hb).
    rewrite (proj2 (String.eqb_neq _ _) Hl). cbn [negb].
    rewrite (findIndex_unknown db b Hnot), (findIndex_id db _ l Hnd Hk).
    cbn [Server.indexOf].
    assert (0 < length db)%nat by (destruct db; simpl; [done | lia]).
    replace (Z.of_nat (pred (length db))) with (Z.of_nat (length db) - 1) by lia.
    rewrite (slice_to_minus_one db _ Hne).
    destruct (Z.ltb_spec (-1) (Z.of_nat (length db))) as [_ | Hge]; [| lia].
    destruct (Z.ltb_spec (Z.of_nat (length db) - 1) (Z.of_nat (length db)))
      as [_ | Hge]; [| lia].
    reflexivity.
Qed.

(** ** Loading the messages page by page *)

Lemma take_more_is_all {A : Type} (l : list A) (a b : nat) :
  (length l ≤ a)%nat → (a ≤ b)%nat → take b l = take a l.
Proof. intros Ha Hb. by rewrite !take_ge by lia. Qed.

(** The cache after the first load and [j] further ones. *)
Lemma loaded_state (db : list Message) (j : nat) :
  NoDup (map id db) → (∀ m, m ∈ db → id m ≠ "") →
  ∃ p,
    readQuery (loaded db j) = Some p
    ∧ edges p = map Server.edgeOf (take (20 * S j) db)
    ∧ hasNextPage (pageInfo p) = bool_decide (20 * S j < length db)%nat
    ∧ endCursor (pageInfo p) = id <$> last (take (20 * S j) db).
Proof.
  intros Hnd Hids. induction j as [|j IH].
  - unfold loaded, UseMessages.useQuery, UseMessages.runQuery. cbn [Nat.iter].
    cbn [default UseMessages.DEFAULT_PAGE_SIZE]. unfold UseMessages.DEFAULT_PAGE_SIZE.
    rewrite (resolver_start db 20) by lia.
    eexists. split; [reflexivity |]. cbn [merge readQuery query_data edges pageInfo hasNextPage endCursor].
    rewrite last_cursor. change (Z.to_nat 20) with 20%nat.
    change (20 * 1)%nat with 20%nat. repeat split.
    destruct (Z.ltb_spec 20 (Z.of_nat (length db)));
      symmetry; [apply bool_decide_eq_true_2 | apply bool_decide_eq_false_2];
      lia.
  - destruct IH as (p & Hread & Hedges & Hnext & Hend).
    unfold loaded in *. rewrite Nat.iter_succ.
    set (c := Nat.iter j _ _) in *.
    unfold UseMessages.handleFetchMore. rewrite Hread, Hnext.
    destruct (bool_decide_reflect (20 * S j < length db)%nat) as [Hlt | Hge].
    + assert (∃ x, db !! pred (20 * S j) = Some x
                   ∧ last (take (20 * S j) db) = Some x)
        as (x & Hx & Hlastx).
      { destruct (lookup_lt_is_Some_2 db (pred (20 * S j))) as [x Hx]; [lia |].
        exists x. split; [exact Hx |].
        rewrite last_lookup, length_take_le by lia.
        by rewrite lookup_take_lt by lia. }
      rewrite Hend, Hlastx. cbn [fmap option_fmap option_map negb orb truthy].
      assert (Hid : id x ≠ "").
      { apply Hids. by eapply list_elem_of_lookup_2. }
      unfold falsy. rewrite (proj2 (String.eqb_neq _ _) Hid). cbn [negb].
      unfold UseMessages.runQuery, UseMessages.DEFAULT_PAGE_SIZE.
      rewrite (resolver_after db 20 _ x Hnd Hx Hid) by lia.
      replace (S (pred (20 * S j))) with (20 * S j)%nat by lia.
      change (Z.to_nat 20) with 20%nat.
      eexists. split; [reflexivity |].
      unfold merge. rewrite Hread. cbn [mbind option_bind after truthy].
      unfold falsy. rewrite (proj2 (String.eqb_neq _ _) Hid).
      cbn [negb edges pageInfo hasNextPage endCursor].
      rewrite last_cursor, Hedges, <- map_app, take_take_drop.
      replace (20 * S j + 20)%nat with (20 * S (S j))%nat by lia.
      split; [reflexivity |]. split.
      * rewrite length_drop.
        destruct (Z.ltb_spec 20 (Z.of_nat (length db - 20 * S j)));
          symmetry; [apply bool_decide_eq_true_2 | apply bool_decide_eq_false_2];
          lia.
      * replace (20 * S (S j))%nat with (20 * S j + 20)%nat by lia.
        rewrite <- (take_take_drop db (20 * S j) 20).
        destruct (take 20 (drop (20 * S j) db)) as [|y w] eqn:Hw.
        -- exfalso. apply (f_equal length) in Hw.
           rewrite length_take, length_drop in Hw.
           change (length (@nil Message)) with 0%nat in Hw. lia.
        -- by rewrite last_app_cons.
    + cbn [negb orb]. exists p. split; [exact Hread |].
      rewrite (take_more_is_all db (20 * S j) (20 * S (S j))) by lia.
      split; [exact Hedges |]. split; [| exact Hend].
      rewrite Hnext. symmetry. apply bool_decide_eq_false_2. lia.
Qed.

(** X12: loading page by page.  Over a server whose message list has one
    message per id and no empty id, after the first load and [j] calls of
    [handleFetchMore] the hook shows the first [20 * (j + 1)] messages of the
    server, each once and in order, and reports a next page exactly when the
    server has more; once all are shown, a further call fetches nothing. *)
Theorem pagination_loads_in_order (db : list Message) (j : nat) :
  NoDup (map id db) → (∀ m, m ∈ db → id m ≠ "") →
  UseMessages.messagesOf (loaded db j) = take (20 * S j) db
  ∧ UseMessages.hasNextPageOf (loaded db j)
    = bool_decide (20 * S j < length db)%nat
  ∧ ((length db ≤ 20 * S j)%nat →
     UseMessages.messagesOf (loaded db j) = db
     ∧ loaded db (S j) = loaded db j).
Proof.
  intros Hnd Hids.
  destruct (loaded_state db j Hnd Hids) as (p & Hread & Hedges & Hnext & _).
  unfold UseMessages.messagesOf, UseMessages.hasNextPageOf.
  rewrite Hread, Hedges, nodes_of_edges.
  split; [reflexivity |]. split; [exact Hnext |].
  intros Hall. split; [by apply take_ge |].
  unfold loaded in *. rewrite Nat.iter_succ.
  unfold UseMessages.handleFetchMore at 1. rewrite Hread, Hnext.
  by rewrite bool_decide_eq_false_2 by lia.
Qed.

(** * The chat hook and the widget *)

(** With a render before the event, the step is the handler of the hook on
    the state it finds. *)
Lemma chatStep_rendered (s : Hooks.ChatState) (ev : ChatEvent) :
  chatStep s s ev
  = match ev with
    | MessageAdded m => Hooks.onMessageAdded m s
    | MessageUpdated m => Hooks.onMessageUpdated m s
    | AtBottomChange atBottom => Hooks.handleAtBottomChange atBottom s
    | ResetNewMessages => Hooks.resetNewMessages s
    | BannerClick => Hooks.resetNewMessages s
    | InputChange v => Hooks.setInputValue v s
    end.
Proof. by destruct ev. Qed.

(** What every step keeps, whatever the render its handler closes over:
    the counter is not negative and is bounded by the created-events seen. *)
Lemma chatStep_bounds (rendered s : Hooks.ChatState) (ev : ChatEvent) (k : Z) :
  0 <= Hooks.newMessagesCount s <= k →
  0 <= Hooks.newMessagesCount (chatStep rendered s ev)
    <= k + (if isMessageAdded ev then 1 else 0).
Proof.
  intros Hk. destruct ev as [m | m | b | | | v]; simpl.
  - destruct (negb (Hooks.isAtBottom rendered)); simpl; lia.
  - unfold Hooks.onMessageUpdated. lia.
  - destruct (b && (0 <? Hooks.newMessagesCount rendered)); simpl; lia.
  - lia.
  - lia.
  - lia.
Qed.

Lemma chatBatch_bounds (rendered : Hooks.ChatState) (evs : list ChatEvent)
    (s : Hooks.ChatState) (k : Z) :
  0 <= Hooks.newMessagesCount s <= k →
  0 <= Hooks.newMessagesCount (fold_left (chatStep rendered) evs s)
    <= k + Z.of_nat (length (List.filter isMessageAdded evs)).
Proof.
  revert s k. induction evs as [|ev evs IH]; intros s k Hk; simpl; [lia |].
  pose proof (IH _ _ (chatStep_bounds rendered s ev k Hk)) as Hrest.
  destruct (isMessageAdded ev); simpl length; lia.
Qed.

Lemma chatRun_bounds (batches : list (list ChatEvent)) (s : Hooks.ChatState)
    (k : Z) :
  0 <= Hooks.newMessagesCount s <= k →
  0 <= Hooks.newMessagesCount (fold_left chatBatch batches s)
    <= k + Z.of_nat (length (List.filter isMessageAdded (concat batches))).
Proof.
  revert s k. induction batches as [|b bs IH]; intros s k Hk; simpl; [lia |].
  pose proof (IH _ _ (chatBatch_bounds s b s k Hk)) as Hrest.
  fold (chatBatch s b) in Hrest.
  rewrite List.filter_app, length_app. lia.
Qed.

(** With a render before the event, a step keeps the counter at zero at the
    bottom. *)
Lemma chatStep_keeps (s : Hooks.ChatState) (ev : ChatEvent) :
  0 <= Hooks.newMessagesCount s →
  Hooks.isAtBottom s && negb (Hooks.newMessagesCount s =? 0) = false →
  let s' := chatStep s s ev in
  Hooks.isAtBottom s' && negb (Hooks.newMessagesCount s' =? 0) = false.
Proof.
  intros Hpos Hbottom.
  destruct ev as [m | m | b | | | v]; simpl.
  - destruct (Hooks.isAtBottom s) eqn:Hat; simpl.
    + by rewrite Hat.
    + by rewrite Hat.
  - exact Hbottom.
  - destruct b; simpl; [| reflexivity].
    destruct (Z.ltb_spec 0 (Hooks.newMessagesCount s)); simpl; [reflexivity |].
    by assert (Hooks.newMessagesCount s = 0) as -> by lia.
  - apply andb_false_r.
  - apply andb_false_r.
  - exact Hbottom.
Qed.

Lemma chatRun_keeps (batches : list (list ChatEvent)) (s : Hooks.ChatState) :
  Forall (λ b, (length b <= 1)%nat) batches →
  0 <= Hooks.newMessagesCount s →
  Hooks.isAtBottom s && negb (Hooks.newMessagesCount s =? 0) = false →
  let s' := fold_left chatBatch batches s in
  Hooks.isAtBottom s' && negb (Hooks.newMessagesCount s' =? 0) = false.
Proof.
  intros Hone. revert s.
  induction Hone as [|b bs Hb _ IH]; intros s Hpos Hbottom; simpl;
    [exact Hbottom |].
  destruct b as [|ev [|ev' b]]; [by apply IH | | simpl in Hb; lia].
  apply IH.
  - apply (chatStep_bounds s s ev (Hooks.newMessagesCount s)). lia.
  - by apply chatStep_keeps.
Qed.

(** X13: the counter of new messages over any run of the chat hook, whose
    handlers are closures of the last render.  It is never negative and
    never exceeds the number of created-events seen.  When a render comes
    between any two events, it is zero whenever the list is at the bottom,
    and the banner is rendered exactly when it is positive.  Without that
    render it may stay positive at the bottom: a created-event and the
    return to the bottom handled in one batch leave the counter at one, and
    the banner comes up on the next scroll away. *)
Theorem chat_counter_invariant (batches : list (list ChatEvent)) :
  let s := chatRun batches in
  (0 <= Hooks.newMessagesCount s
   ∧ Hooks.newMessagesCount s
     <= Z.of_nat (length (List.filter isMessageAdded (concat batches))))
  ∧ (Forall (λ b, (length b <= 1)%nat) batches →
     Hooks.isAtBottom s && negb (Hooks.newMessagesCount s =? 0) = false
     ∧ ChatWidget.bannerShown s = (0 <? Hooks.newMessagesCount s))
  ∧ (let batched :=
       chatRun [[AtBottomChange false];
                [MessageAdded customerMessage; AtBottomChange true]] in
     Hooks.isAtBottom batched = true
     ∧ Hooks.newMessagesCount batched = 1
     ∧ ChatWidget.bannerShown batched = false
     ∧ ChatWidget.bannerShown (chatBatch batched [AtBottomChange false]) = true).
Proof.
  intros s.
  pose proof (chatRun_bounds batches Hooks.initialChatState 0) as Hk.
  fold (chatRun batches) in Hk. fold s in Hk. simpl in Hk.
  split; [lia |]. split; [| by repeat split].
  intros Hone.
  pose proof (chatRun_keeps batches Hooks.initialChatState Hone) as Hbottom.
  fold (chatRun batches) in Hbottom. fold s in Hbottom. simpl in Hbottom.
  specialize (Hbottom ltac:(lia) eq_refl).
  split; [exact Hbottom |].
  unfold ChatWidget.bannerShown.
  destruct (Hooks.isAtBottom s); simpl in *.
  - apply negb_false_iff, Z.eqb_eq in Hbottom. by rewrite Hbottom.
  - rewrite andb_true_r.
    destruct (Z.eqb_spec (Hooks.newMessagesCount s) 0) as [-> | Hne];
      [reflexivity |].
    symmetry. apply Z.ltb_lt. lia.
Qed.

Lemma chat_counter_invariant_witness :
  let s := chatRun [[AtBottomChange false]; [MessageAdded customerMessage];
                    [MessageAdded adminMessage]; [AtBottomChange true]] in
  Hooks.newMessagesCount
    (chatRun [[AtBottomChange false]; [MessageAdded customerMessage];
              [MessageAdded adminMessage]]) = 2
  ∧ Hooks.isAtBottom s && negb (Hooks.newMessagesCount s =? 0) = false
  ∧ ChatWidget.bannerShown s = (0 <? Hooks.newMessagesCount s).
Proof.
  split; [reflexivity |].
  apply (chat_counter_invariant
           [[AtBottomChange false]; [MessageAdded customerMessage];
            [MessageAdded adminMessage]; [AtBottomChange true]]).
  repeat constructor; simpl; lia.
Defined.

Section Submission.
Context `{Builtins}.

Lemma canSubmit_disabled (value : string) (loading disabled : bool) :
  MessageInput.canSubmit value loading disabled
  = negb (MessageInput.isSubmitDisabled value loading disabled).
Proof.
  unfold MessageInput.canSubmit, MessageInput.isSubmitDisabled.
  by destruct loading, disabled, (falsy (String_trim value)).
Qed.

Lemma handleSubmit_sends {W : Type} (send : string → W → Hooks.SendResult * W)
    (s : Hooks.ChatState) (w : W) :
  falsy (String_trim (Hooks.inputValue s)) = false →
  Hooks.handleSubmit send false (s, w)
  = match send (String_trim (Hooks.inputValue s)) w with
    | (Hooks.Returned _, w') => (Hooks.setInputValue "" s, w')
    | (Hooks.Thrown, w') =>
      (Hooks.setTimeout 3000
         (Hooks.setIsConnected false (Hooks.setInputValue "" s)), w')
    end.
Proof.
  intros Hblank. unfold Hooks.handleSubmit, Hooks.sendMessage. cbv zeta.
  rewrite Hblank. cbn [orb].
  by destruct (send (String_trim (Hooks.inputValue s)) w) as [[?|] ?].
Qed.

(** X14: the gate of the send button.  While the button is disabled (a send
    in flight, the connection lost, or a blank input) neither a click nor a
    key changes anything; while it is enabled, a click clears the input and
    calls the send operation once, with the trimmed input, and Enter without
    Shift does what the click does; any other key, and Enter with Shift,
    does nothing. *)
Theorem submit_gate {W : Type} (send : string → W → Hooks.SendResult * W)
    (sending : bool) (s : Hooks.ChatState) (w : W) (key : string)
    (shiftKey : bool) :
  let disabled :=
    MessageInput.isSubmitDisabled (Hooks.inputValue s) sending
      (negb (Hooks.isConnected s)) in
  (disabled = true →
     ChatWidget.clickSend send sending (s, w) = (s, w)
     ∧ ChatWidget.keyDown send sending key shiftKey (s, w) = (s, w))
  ∧ (disabled = false →
     ChatWidget.clickSend send sending (s, w)
     = (match send (String_trim (Hooks.inputValue s)) w with
        | (Hooks.Returned _, w') => (Hooks.setInputValue "" s, w')
        | (Hooks.Thrown, w') =>
          (Hooks.setTimeout 3000
             (Hooks.setIsConnected false (Hooks.setInputValue "" s)), w')
        end)
     ∧ ChatWidget.keyDown send sending "Enter" false (s, w)
       = ChatWidget.clickSend send sending (s, w))
  ∧ (key ≠ "Enter" ∨ shiftKey = true →
     ChatWidget.keyDown send sending key shiftKey (s, w) = (s, w)).
Proof.
  intros disabled. unfold disabled.
  unfold ChatWidget.clickSend, ChatWidget.keyDown,
    MessageInput.handleSubmit, MessageInput.handleKeyDown.
  cbn [fst]. rewrite canSubmit_disabled. split; [| split].
  - intros ->. simpl. by destruct (_ && _).
  - intros Hen. rewrite Hen. simpl. split; [| reflexivity].
    unfold MessageInput.isSubmitDisabled in Hen.
    apply orb_false_iff in Hen as [Hen Hblank].
    apply orb_false_iff in Hen as [-> _].
    by apply handleSubmit_sends.
  - intros [Hkey | ->].
    + by rewrite (proj2 (String.eqb_neq _ _) Hkey).
    + by rewrite andb_false_r.
Qed.


End Submission.

(** * The ids the server assigns *)

Lemma pretty_N_go_nonempty (x : N) (s : string) :
  s ≠ "" → pretty_N_go x s ≠ "".
Proof.
  revert s. induction (N.lt_wf_0 x) as [x _ IH]; intros s Hs.
  destruct (decide (x = 0)%N) as [-> | Hx].
  - by rewrite pretty_N_go_0.
  - rewrite pretty_N_go_step by lia. apply IH; [| discriminate].
    apply N.div_lt; lia.
Qed.

Lemma pretty_nonempty (k : nat) : pretty k ≠ "".
Proof.
  unfold pretty, pretty_nat, pretty, pretty_N.
  destruct (decide (N.of_nat k = 0)%N) as [_ | Hk]; [discriminate |].
  rewrite pretty_N_go_step by lia. by apply pretty_N_go_nonempty.
Qed.

(** Every id is the numeral of a number up to the length of the list. *)
Lemma sendMessage_keeps_numbering (db : list Message) (text_ now : string) :
  NoDup (map id db) →
  (∀ m, m ∈ db → ∃ k, (k ≤ length db)%nat ∧ id m = pretty k) →
  let db' := snd (ServerState.sendMessage db text_ now) in
  NoDup (map id db')
  ∧ (∀ m, m ∈ db' → ∃ k, (k ≤ length db')%nat ∧ id m = pretty k).
Proof.
  intros Hnd Hnum. simpl. rewrite map_app, length_app. simpl. split.
  - apply NoDup_app. split; [exact Hnd |]. split; [| apply NoDup_singleton].
    intros x Hx Hx'. apply list_elem_of_singleton in Hx' as ->.
    apply list_elem_of_In, in_map_iff in Hx as (m & Hid & Hm).
    destruct (Hnum m) as (k & Hk & Hidk); [by apply list_elem_of_In |].
    rewrite Hidk in Hid. apply (inj pretty) in Hid. lia.
  - intros m Hm. apply elem_of_app in Hm as [Hm | Hm].
    + destruct (Hnum m Hm) as (k & Hk & Hidk). exists k. split; [lia | done].
    + apply list_elem_of_singleton in Hm as ->. simpl.
      exists (length db + 1)%nat. split; [lia | reflexivity].
Qed.

Lemma afterSends_numbering (now : string) (sends : list (string * string)) :
  let db := ServerState.afterSends now sends in
  NoDup (map id db)
  ∧ (∀ m, m ∈ db → ∃ k, (k ≤ length db)%nat ∧ id m = pretty k)
  ∧ length db = (30 + length sends)%nat.
Proof.
  unfold ServerState.afterSends.
  assert (Hstart : NoDup (map id (ServerState.initialMessages now))
            ∧ (∀ m, m ∈ ServerState.initialMessages now →
                 ∃ k, (k ≤ length (ServerState.initialMessages now))%nat
                      ∧ id m = pretty k)
            ∧ length (ServerState.initialMessages now) = 30%nat).
  { unfold ServerState.initialMessages. rewrite map_map. cbn [id].
    split; [| split].
    - change (NoDup (pretty <$> seq 0 30)).
      apply (NoDup_fmap_2 pretty), NoDup_seq.
    - intros m Hm. apply list_elem_of_In, in_map_iff in Hm as (i & <- & Hi).
      apply in_seq in Hi. exists i. rewrite length_map, length_seq.
      split; [lia | reflexivity].
    - by rewrite length_map, length_seq. }
  revert Hstart. generalize (ServerState.initialMessages now) as db.
  assert (Hgen : ∀ (n : nat) db,
            NoDup (map id db)
            ∧ (∀ m, m ∈ db → ∃ k, (k ≤ length db)%nat ∧ id m = pretty k)
            ∧ length db = n →
            let db' := fold_left
                         (fun db0 send =>
                            snd (ServerState.sendMessage db0 (fst send) (snd send)))
                         sends db in
            NoDup (map id db')
            ∧ (∀ m, m ∈ db' → ∃ k, (k ≤ length db')%nat ∧ id m = pretty k)
            ∧ length db' = (n + length sends)%nat).
  { induction sends as [|send sends IH]; intros n db (Hnd & Hnum & Hlen); simpl.
    - repeat split; [exact Hnd | exact Hnum | lia].
    - destruct (sendMessage_keeps_numbering db (fst send) (snd send) Hnd Hnum)
        as [Hnd' Hnum'].
      assert (Hlen' : length (snd (ServerState.sendMessage db (fst send)
                                     (snd send))) = S n).
      { simpl. rewrite length_app. simpl. lia. }
      destruct (IH (S n) _ (conj Hnd' (conj Hnum' Hlen'))) as (H1 & H2 & H3).
      split; [exact H1 |]. split; [exact H2 |].
      etransitivity; [exact H3 | lia]. }
  intros db Hstart. exact (Hgen 30%nat db Hstart).
Qed.

(** X16: the ids of the server.  After any sequence of [sendMessage]
    mutations the message list holds the thirty starting messages and one
    message per mutation, no id is empty and no id is held twice: the list
    is one the client can page through. *)
Theorem server_ids_stay_apart (now : string) (sends : list (string * string)) :
  let db := ServerState.afterSends now sends in
  NoDup (map id db)
  ∧ (∀ m, m ∈ db → id m ≠ "")
  ∧ length db = (30 + length sends)%nat.
Proof.
  intros db. destruct (afterSends_numbering now sends) as (Hnd & Hnum & Hlen).
  split; [exact Hnd |]. split; [| exact Hlen].
  intros m Hm. destruct (Hnum m Hm) as (k & _ & ->). apply pretty_nonempty.
Qed.

Section ReplyIds.
Context `{Builtins}.

Lemma upsertEdges_app_absent (es l : list MessageEdge) (m : Message) :
  id m ∉ ids es → upsertEdges (es ++ l) m = es ++ upsertEdges l m.
Proof.
  induction es as [|e es IH]; intros Hnot; [reflexivity |].
  simpl in Hnot. apply not_elem_of_cons in Hnot as [Hne Hnot].
  assert (Hne' : id (node e) ≠ id m) by congruence.
  simpl. rewrite upsertEdges_cons, (proj2 (String.eqb_neq _ _) Hne').
  by rewrite IH.
Qed.

(** X17: the id of a reply is used again.  The reply [asyncReplyMessage]
    publishes carries the id the next [sendMessage] assigns, since the reply
    is not pushed to the list.  In a store that did not hold that id, the
    upsert of the reply followed by the upsert of the sent message (not
    older than the reply) leaves one edge for both, with the sent message:
    the reply of the customer is gone. *)
Theorem reply_id_is_reused (db : list Message) (text_ now now' : string)
    (r : Message) (page : MessagePage) (log : list MessagePage) :
  ServerState.asyncReplyMessage db now = Some r →
  let sent := fst (ServerState.sendMessage db text_ now') in
  id r = id sent
  ∧ sender r = Customer
  ∧ sender sent = Admin
  ∧ (id r ∉ ids (edges page) → Date_lt now' now = false →
     readQuery (upsertMessageInCache
                  (upsertMessageInCache (mkCache (Some page) log) r) sent)
     = Some (with_edges page (edges page ++ [newEdge sent]))).
Proof.
  intros Hreply sent. unfold ServerState.asyncReplyMessage in Hreply.
  destruct (last db) as [l|]; [| discriminate].
  destruct (sender l); [| discriminate]. injection Hreply as <-.
  split; [reflexivity |]. split; [reflexivity |]. split; [reflexivity |].
  intros Hnot Hfresh. rewrite !upsert_read. simpl.
  rewrite (upsertEdges_absent _ _ Hnot).
  rewrite upsertEdges_app_absent by exact Hnot.
  rewrite upsertEdges_cons. simpl. rewrite String.eqb_refl.
  by rewrite Hfresh.
Qed.

End ReplyIds.

(** * The further properties on concrete stores *)

Lemma upsert_id_sequence_witness :
  (id newest7 ∈ ids (edges samplePage))
  ∧ (id (message "9") ∉ ids (edges samplePage))
  ∧ uniqueIds (edges samplePage)
  ∧ (∃ page',
       readQuery (@upsertMessageInCache runtime sampleStore newest7) = Some page'
       ∧ ids (edges page') = ["0"; "7"] ∧ uniqueIds (edges page'))
  ∧ (∃ page',
       readQuery (@upsertMessageInCache runtime sampleStore (message "9"))
       = Some page'
       ∧ ids (edges page') = ["0"; "7"; "9"]).
Proof.
  assert (Hin : id newest7 ∈ ids (edges samplePage)) by by_decision.
  assert (Hout : id (message "9") ∉ ids (edges samplePage)) by by_decision.
  assert (Huniq : uniqueIds (edges samplePage)) by by_decision.
  split; [exact Hin |]. split; [exact Hout |]. split; [exact Huniq |]. split.
  - destruct (@upsert_id_sequence runtime samplePage [] newest7)
      as (page' & Hread & Hsame & _ & Hkeep).
    exists page'. split; [exact Hread |].
    split; [exact (Hsame Hin) | exact (Hkeep Huniq)].
  - destruct (@upsert_id_sequence runtime samplePage [] (message "9"))
      as (page' & Hread & _ & Hmore & _).
    exists page'. split; [exact Hread | exact (Hmore Hout)].
Defined.

Lemma upsert_then_lookup_witness :
  stored "0" (@upsertMessageInCache runtime sampleStore newest7)
  = Some (message "0")
  ∧ stored "9" (@upsertMessageInCache runtime sampleStore (message "9"))
    = Some (message "9")
  ∧ stored "7" (@upsertMessageInCache runtime sampleStore newest7) = Some newest7
  ∧ stored "7" (@upsertMessageInCache runtime sampleStore stored7) = Some newer7.
Proof.
  destruct (@upsert_then_lookup runtime samplePage [] newest7 "0")
    as (Hother & _ & _).
  destruct (@upsert_then_lookup runtime samplePage [] (message "9") "9")
    as (_ & Hnew & _).
  destruct (@upsert_then_lookup runtime samplePage [] newest7 "7")
    as (_ & _ & Hfresh).
  destruct (@upsert_then_lookup runtime samplePage [] stored7 "7")
    as (_ & _ & Hstale).
  split; [| split; [| split]].
  - etransitivity; [apply Hother; discriminate | reflexivity].
  - apply Hnew. reflexivity.
  - apply (Hfresh newer7). reflexivity.
  - apply (Hstale newer7). reflexivity.
Defined.

Lemma upserts_of_distinct_ids_commute_witness :
  id newest7 ≠ id (message "9")
  ∧ (id newest7 ∈ ids (edges samplePage))
  ∧ readQuery (@upsertMessageInCache runtime
                 (@upsertMessageInCache runtime sampleStore newest7)
                 (message "9"))
    = readQuery (@upsertMessageInCache runtime
                   (@upsertMessageInCache runtime sampleStore (message "9"))
                   newest7)
  ∧ readQuery (@upsertMessageInCache runtime
                 (@upsertMessageInCache runtime sampleStore (message "8"))
                 (message "9"))
    = Some (with_edges samplePage
              (edges samplePage ++ [newEdge (message "8"); newEdge (message "9")])).
Proof.
  assert (Hne : id newest7 ≠ id (message "9")) by discriminate.
  assert (Hin : id newest7 ∈ ids (edges samplePage)) by by_decision.
  split; [exact Hne |]. split; [exact Hin |]. split.
  - destruct (@upserts_of_distinct_ids_commute runtime samplePage []
                newest7 (message "9") Hne) as [Hcomm _].
    apply Hcomm. by left.
  - destruct (@upserts_of_distinct_ids_commute runtime samplePage []
                (message "8") (message "9")) as [_ Horder]; [discriminate |].
    destruct Horder as [Hfirst _]; [by_decision | by_decision | exact Hfirst].
Defined.

Lemma eviction_commutes_with_upsert_witness :
  String.prefix "temp-" (id confirmedHi) = false
  ∧ readQuery (removeTempMessagesByText
                 (@upsertMessageInCache runtime pendingStore confirmedHi) "hi")
    = readQuery (@upsertMessageInCache runtime
                   (removeTempMessagesByText pendingStore "hi") confirmedHi).
Proof.
  split; [reflexivity |].
  exact (@eviction_commutes_with_upsert runtime pendingStore "hi" confirmedHi
           eq_refl).
Defined.

Lemma eviction_spares_server_edges_witness :
  uniqueIds (edges (createMockMessagePage [customerHi; tempHi]))
  ∧ ∃ page',
      readQuery (removeTempMessagesByText greetedStore "hi") = Some page'
      ∧ List.filter (fun e => negb (isTemp e)) (edges page')
        = [createMockMessageEdge customerHi]
      ∧ uniqueIds (edges page').
Proof.
  assert (Huniq : uniqueIds (edges (createMockMessagePage [customerHi; tempHi])))
    by by_decision.
  split; [exact Huniq |].
  destruct (eviction_spares_server_edges
              (createMockMessagePage [customerHi; tempHi]) [] "hi")
    as (page' & Hread & Hserver & _ & Hkeep).
  exists page'. split; [exact Hread |]. split; [exact Hserver | exact (Hkeep Huniq)].
Defined.

Lemma update_effect_witness :
  String.prefix "temp-" (id confirmedHi) = false
  ∧ ∃ page',
      @LibHooks.update runtime pendingStore (Some confirmedHi)
      = mkCache (Some page') [page']
      ∧ id confirmedHi ∈ ids (edges page')
      ∧ (∀ e, e ∈ edges page' → ¬ evicted (text confirmedHi) e).
Proof.
  split; [reflexivity |].
  destruct (@update_effect runtime
              (createMockMessagePage [tempHi; tempBye; tempHi]) [] confirmedHi)
    as (page' & Hwrite & _ & Hheld & _ & Hnone).
  exists page'. split; [exact Hwrite |]. split; [exact Hheld |].
  exact (Hnone eq_refl).
Defined.

Lemma legacy_streams_against_upsert_witness :
  (id (message "9") ∉ ids (edges samplePage))
  ∧ storedNode (id newest7) samplePage = Some newer7
  ∧ @Hooks.handleNewMessage unit None (sampleStore, tt) (message "9")
    = (@upsertMessageInCache runtime sampleStore (message "9"), tt)
  ∧ @Hooks.handleUpdatedMessage runtime unit None (sampleStore, tt) (message "9")
    = (sampleStore, tt)
  ∧ @Hooks.handleNewMessage unit None (sampleStore, tt) newest7
    = (sampleStore, tt)
  ∧ @Hooks.handleUpdatedMessage runtime unit None (sampleStore, tt) newest7
    = (@upsertMessageInCache runtime sampleStore newest7, tt).
Proof.
  assert (Hout : id (message "9") ∉ ids (edges samplePage)) by by_decision.
  split; [exact Hout |]. split; [reflexivity |].
  destruct (@legacy_streams_against_upsert runtime unit None None
              samplePage [] tt (message "9")) as [Hunknown _].
  destruct (@legacy_streams_against_upsert runtime unit None None
              samplePage [] tt newest7) as [_ Hknown].
  destruct (Hunknown Hout) as [Hcreated Hupdated].
  destruct (Hknown newer7 eq_refl) as [Hcreated' Hupdated'].
  split; [exact Hcreated |]. split; [exact Hupdated |].
  split; [exact Hcreated' | exact Hupdated'].
Defined.

Lemma merge_and_unique_ids_witness :
  uniqueIds (edges pageA) ∧ uniqueIds (edges pageB)
  ∧ (∀ x, x ∈ ids (edges pageA) → x ∉ ids (edges pageB))
  ∧ uniqueIds (edges (merge (Some pageA) pageB (Some afterArgs)))
  ∧ length (edges (merge (Some pageA) pageB (Some afterArgs))) = 5%nat
  ∧ ¬ uniqueIds (edges (merge (Some pageA) pageA (Some afterArgs))).
Proof.
  assert (HA : uniqueIds (edges pageA)) by by_decision.
  assert (HB : uniqueIds (edges pageB)) by by_decision.
  assert (Hapart : ∀ x, x ∈ ids (edges pageA) → x ∉ ids (edges pageB)).
  { intros x Hx. apply list_elem_of_In in Hx. simpl in Hx.
    destruct Hx as [<- | [<- | []]]; by_decision. }
  split; [exact HA |]. split; [exact HB |]. split; [exact Hapart |].
  destruct (merge_and_unique_ids pageA pageB (Some afterArgs)) as [Hkeep Hall].
  destruct (merge_and_unique_ids pageA pageA (Some afterArgs)) as [_ Hdup].
  split; [exact (Hkeep HA HB Hapart) |]. split.
  - destruct (Hall eq_refl) as [Hlen _]. exact Hlen.
  - destruct (Hdup eq_refl) as [_ Htwice]. apply (Htwice "0"); by_decision.
Defined.

Lemma resolver_window_witness :
  NoDup (map id sampleDb)
  ∧ sampleDb !! 19%nat = Some (message "19")
  ∧ (let page :=
       Server.messages sampleDb
         {| first := Some 20; after := Some "19"; before := None |} in
     map node (edges page)
     = map message ["20"; "21"; "22"; "23"; "24"]
     ∧ hasPreviousPage (pageInfo page) = true
     ∧ hasNextPage (pageInfo page) = false
     ∧ startCursor (pageInfo page) = Some "20"
     ∧ endCursor (pageInfo page) = Some "24").
Proof.
  assert (Hnd : NoDup (map id sampleDb)) by by_decision.
  split; [exact Hnd |]. split; [reflexivity |].
  destruct (resolver_window sampleDb 20 19 (message "19") Hnd eq_refl)
    as (Hnodes & _ & Hprev & Hnext & Hstart & Hend);
    [discriminate | lia |].
  split; [exact Hnodes |]. split; [exact Hprev |].
  split; [exact Hnext |]. split; [exact Hstart | exact Hend].
Defined.

Lemma resolver_unusable_arguments_witness :
  ("nowhere" ∉ map id sampleDb)
  ∧ last sampleDb = Some (message "24")
  ∧ Server.messages sampleDb
      {| first := Some 20; after := Some "nowhere"; before := None |}
    = Server.messages sampleDb
        {| first := Some 20; after := None; before := None |}
  ∧ Server.messages sampleDb
      {| first := Some 20; after := Some "19"; before := Some "nowhere" |}
    = Server.messages sampleDb
        {| first := Some 20; after := Some "19"; before := Some "24" |}
  ∧ map node
      (edges (Server.messages sampleDb
                {| first := Some 20; after := Some "19";
                   before := Some "nowhere" |}))
    = map message ["20"; "21"; "22"; "23"].
Proof.
  assert (Hnot : "nowhere" ∉ map id sampleDb) by by_decision.
  assert (Hnd : NoDup (map id sampleDb)) by by_decision.
  split; [exact Hnot |]. split; [reflexivity |].
  destruct (resolver_unusable_arguments sampleDb (Some 20) "nowhere" "nowhere"
              None None) as (Hafter & _).
  destruct (resolver_unusable_arguments sampleDb (Some 20) "nowhere" "nowhere"
              (Some "19") None) as (_ & Hbefore & _).
  split; [exact (Hafter Hnot) |]. split; [| reflexivity].
  apply (Hbefore Hnot ltac:(discriminate) Hnd (message "24"));
    [reflexivity | discriminate].
Defined.

Lemma pagination_loads_in_order_witness :
  NoDup (map id sampleDb)
  ∧ (∀ m, m ∈ sampleDb → id m ≠ "")
  ∧ UseMessages.messagesOf (loaded sampleDb 0) = take 20 sampleDb
  ∧ UseMessages.hasNextPageOf (loaded sampleDb 0) = true
  ∧ UseMessages.messagesOf (loaded sampleDb 1) = sampleDb
  ∧ UseMessages.hasNextPageOf (loaded sampleDb 1) = false
  ∧ loaded sampleDb 2 = loaded sampleDb 1.
Proof.
  assert (Hnd : NoDup (map id sampleDb)) by by_decision.
  assert (Hids : ∀ m, m ∈ sampleDb → id m ≠ "").
  { apply (proj1 (Forall_forall _ _)). by_decision. }
  split; [exact Hnd |]. split; [exact Hids |].
  destruct (pagination_loads_in_order sampleDb 0 Hnd Hids) as (H0 & Hnext0 & _).
  destruct (pagination_loads_in_order sampleDb 1 Hnd Hids) as (_ & Hnext1 & Hall).
  destruct Hall as [Hshown Hquiet]; [simpl; lia |].
  split; [exact H0 |]. split; [exact Hnext0 |]. split; [exact Hshown |].
  split; [exact Hnext1 | exact Hquiet].
Defined.

Lemma submit_gate_witness :
  let send := fun (t : string) (sent : list string) =>
                (Hooks.Returned None, sent ++ [t]) in
  @MessageInput.isSubmitDisabled runtime (Hooks.inputValue typingHi) false
     (negb (Hooks.isConnected typingHi)) = false
  ∧ @MessageInput.isSubmitDisabled runtime (Hooks.inputValue typingHi) true
      (negb (Hooks.isConnected typingHi)) = true
  ∧ @ChatWidget.clickSend runtime (list string) send false (typingHi, [])
    = (Hooks.initialChatState, ["hi"])
  ∧ @ChatWidget.clickSend runtime (list string) send true (typingHi, [])
    = (typingHi, [])
  ∧ @ChatWidget.keyDown runtime (list string) send false "Enter" true
      (typingHi, [])
    = (typingHi, []).
Proof.
  intros send. split; [reflexivity |]. split; [reflexivity |].
  destruct (@submit_gate runtime (list string) send false typingHi [] "Enter" true)
    as (_ & Henabled & Hshift).
  destruct (@submit_gate runtime (list string) send true typingHi [] "Enter" true)
    as (Hdisabled & _).
  destruct (Henabled eq_refl) as [Hclick _].
  destruct (Hdisabled eq_refl) as [Hblocked _].
  split; [exact Hclick |]. split; [exact Hblocked |].
  apply Hshift. by right.
Defined.


Lemma server_ids_stay_apart_witness :
  let db := ServerState.afterSends T1 [("first", T2); ("second", T3)] in
  map id (drop 29 db) = ["29"; "31"; "32"]
  ∧ NoDup (map id db)
  ∧ (∀ m, m ∈ db → id m ≠ "")
  ∧ length db = 32%nat.
Proof.
  intros db. split; [by vm_compute |].
  exact (server_ids_stay_apart T1 [("first", T2); ("second", T3)]).
Defined.

Lemma reply_id_is_reused_witness :
  let db := ServerState.afterSends T1 [("first", T2)] in
  let reply :=
    {| message_typename := None; id := "32"; text := "Message number 32";
       status := Sent; updatedAt := T2; sender := Customer |} in
  let sent := fst (ServerState.sendMessage db "second" T3) in
  ServerState.asyncReplyMessage db T2 = Some reply
  ∧ (id reply ∉ ids (edges samplePage))
  ∧ @Date_lt runtime T3 T2 = false
  ∧ id sent = "32"
  ∧ readQuery (@upsertMessageInCache runtime
                 (@upsertMessageInCache runtime sampleStore reply) sent)
    = Some (with_edges samplePage (edges samplePage ++ [newEdge sent])).
Proof.
  intros db reply sent.
  assert (Hreply : ServerState.asyncReplyMessage db T2 = Some reply)
    by (by vm_compute).
  assert (Hnot : id reply ∉ ids (edges samplePage)) by by_decision.
  split; [exact Hreply |]. split; [exact Hnot |]. split; [reflexivity |].
  destruct (@reply_id_is_reused runtime db "second" T2 T3 reply samplePage []
              Hreply) as (Hid & _ & _ & Hlost).
  split; [by vm_compute |]. exact (Hlost Hnot eq_refl).
Defined.

Lemma update_evicts_then_upserts_witness :
  uniqueIds (edges samplePage)
  ∧ @wellDated runtime newest7
  ∧ readQuery (@LibHooks.update runtime sampleStore (Some newest7))
    = readQuery (@upsertMessageInCache runtime
                   (removeTempMessagesByText sampleStore (text newest7)) newest7).
Proof.
  assert (Huniq : uniqueIds (edges samplePage)) by by_decision.
  assert (Hdated : @wellDated runtime newest7) by (by eexists).
  split; [exact Huniq |]. split; [exact Hdated |].
  apply (@update_evicts_then_upserts runtime samplePage [] newest7 Huniq Hdated).
  intros e He _. each_edge He; by eexists.
Defined.

(** * Created-events seen twice, and the order of updates *)

Section Convergence.
Context `{Builtins}.

(** X18: a created-event delivered twice while the list is scrolled away.
    Either pair of subscription handlers leaves one edge for the message;
    with the handlers of [widgets/chat/lib/hooks] the counter of the chat
    hook counts it twice, with those of [widgets/chat/hooks] once. *)
Theorem duplicate_created_event_counted (page : MessagePage)
    (log : list MessagePage) (s : Hooks.ChatState) (m : Message) :
  id m ∉ ids (edges page) →
  Hooks.isAtBottom s = false →
  let c := mkCache (Some page) log in
  let lib := LibHooks.handleNewMessage (Some Hooks.onMessageAdded) in
  let legacy := Hooks.handleNewMessage (Some Hooks.onMessageAdded) in
  (edges <$> readQuery (fst (lib (lib (c, s) m) m))
   = Some (edges page ++ [newEdge m])
   ∧ Hooks.newMessagesCount (snd (lib (lib (c, s) m) m))
     = Hooks.newMessagesCount s + 2)
  ∧ (edges <$> readQuery (fst (legacy (legacy (c, s) m) m))
     = Some (edges page ++ [newEdge m])
     ∧ Hooks.newMessagesCount (snd (legacy (legacy (c, s) m) m))
       = Hooks.newMessagesCount s + 1).
Proof.
  intros Hnot Haway c lib legacy. unfold c, lib, legacy. split.
  - unfold LibHooks.handleNewMessage. cbn [fst snd call]. split.
    + rewrite !upsert_read. simpl.
      rewrite (upsertEdges_absent _ _ Hnot).
      rewrite upsertEdges_app_absent by exact Hnot.
      rewrite upsertEdges_cons. simpl.
      by rewrite String.eqb_refl, Date_lt_irrefl.
    + unfold Hooks.onMessageAdded. rewrite Haway. simpl. rewrite Haway. simpl.
      lia.
  - assert (Hfirst : Hooks.handleNewMessage (Some Hooks.onMessageAdded)
                       (mkCache (Some page) log, s) m
                     = (mkCache
                          (Some (with_edges page (edges page ++ [newEdge m])))
                          (log ++ [with_edges page (edges page ++ [newEdge m])]),
                        Hooks.onMessageAdded m s)).
    { unfold Hooks.handleNewMessage, some. cbn [readQuery query_data].
      by rewrite existsb_id, (bool_decide_eq_false_2 _ Hnot). }
    rewrite Hfirst.
    rewrite (hooks_created_known (Some Hooks.onMessageAdded)
               (with_edges page (edges page ++ [newEdge m])) _ _ m
               (length (edges page)) (newEdge m)).
    + cbn [fst snd readQuery query_data]. split; [reflexivity |].
      unfold Hooks.onMessageAdded. by rewrite Haway.
    + apply (firstWithId_appended (edges page) (newEdge m)).
      by apply absent_iff.
Qed.

(** X19: the order of the updates of one id is immaterial.  When the updates
    applied to an id have valid timestamps, no two of them at the same
    instant, the record the store holds for the id after a sequence of
    upserts is the record it holds after any reordering of the sequence. *)
Theorem upsert_order_is_immaterial (page : MessagePage) (log : list MessagePage)
    (ident : string) (ms ms' : list Message) :
  let c := mkCache (Some page) log in
  let updates := applied ident (storedNode ident page) ms in
  ms ≡ₚ ms' →
  Forall wellDated updates →
  (∀ a b t, a ∈ updates → b ∈ updates → atInstant a t → atInstant b t → a = b) →
  stored ident (upserts c ms') = stored ident (upserts c ms).
Proof.
  intros c updates Hperm Hdated Hapart. unfold c.
  assert (Hsame : ∀ x, x ∈ applied ident (storedNode ident page) ms'
                       ↔ x ∈ updates).
  { intros x. unfold updates, applied.
    rewrite !elem_of_app, !elem_of_filter_bool. by rewrite Hperm. }
  assert (Hdated' : Forall wellDated (applied ident (storedNode ident page) ms')).
  { apply Forall_forall. intros x Hx.
    apply (proj1 (Forall_forall _ _) Hdated), Hsame, Hx. }
  pose proof (arbitrate_latest ident _ ms Hdated) as Hms.
  pose proof (arbitrate_latest ident _ ms' Hdated') as Hms'.
  rewrite !stored_upserts.
  destruct (fold_left (arbitrate ident) ms (storedNode ident page)) as [n|],
           (fold_left (arbitrate ident) ms' (storedNode ident page)) as [n'|].
  - destruct Hms as (t & Ht & Hbound & l1 & l2 & Hsplit & _).
    destruct Hms' as (t' & Ht' & Hbound' & l1' & l2' & Hsplit' & _).
    assert (Hn : n ∈ updates).
    { unfold updates. rewrite Hsplit. apply elem_of_app. right. by left. }
    assert (Hn' : n' ∈ updates).
    { apply Hsame. rewrite Hsplit'. apply elem_of_app. right. by left. }
    destruct (Hbound n' Hn') as (t1 & Ht1 & Hle1).
    destruct (Hbound' n (proj2 (Hsame n) Hn)) as (t2 & Ht2 & Hle2).
    unfold atInstant in *.
    assert (t1 = t') by congruence. assert (t2 = t) by congruence. subst.
    assert (t = t') by lia. subst.
    f_equal. by apply (Hapart n' n t').
  - destruct Hms as (t & _ & _ & l1 & l2 & Hsplit & _).
    assert (Hn : n ∈ applied ident (storedNode ident page) ms').
    { apply Hsame. unfold updates. rewrite Hsplit.
      apply elem_of_app. right. by left. }
    rewrite Hms' in Hn. by apply elem_of_nil in Hn.
  - destruct Hms' as (t & _ & _ & l1 & l2 & Hsplit & _).
    assert (Hn : n' ∈ updates).
    { apply Hsame. rewrite Hsplit. apply elem_of_app. right. by left. }
    unfold updates in Hn. rewrite Hms in Hn. by apply elem_of_nil in Hn.
  - reflexivity.
Qed.

End Convergence.

Lemma duplicate_created_event_counted_witness :
  (id (message "9") ∉ ids (edges samplePage))
  ∧ Hooks.isAtBottom scrolledAway = false
  ∧ Hooks.newMessagesCount
      (snd (@LibHooks.handleNewMessage runtime _ (Some Hooks.onMessageAdded)
              (@LibHooks.handleNewMessage runtime _ (Some Hooks.onMessageAdded)
                 (sampleStore, scrolledAway) (message "9"))
              (message "9"))) = 2
  ∧ Hooks.newMessagesCount
      (snd (Hooks.handleNewMessage (Some Hooks.onMessageAdded)
              (Hooks.handleNewMessage (Some Hooks.onMessageAdded)
                 (sampleStore, scrolledAway) (message "9"))
              (message "9"))) = 1.
Proof.
  assert (Hnot : id (message "9") ∉ ids (edges samplePage)) by by_decision.
  split; [exact Hnot |]. split; [reflexivity |].
  destruct (@duplicate_created_event_counted runtime samplePage [] scrolledAway
              (message "9") Hnot eq_refl) as [[_ Hlib] [_ Hlegacy]].
  split; [exact Hlib | exact Hlegacy].
Defined.

Lemma upsert_order_is_immaterial_witness :
  let page := createMockMessagePage [message "0"] in
  let c := mkCache (Some page) [] in
  [stored7; newer7; newest7] ≡ₚ [newest7; stored7; newer7]
  ∧ stored "7" (@upserts runtime c [newest7; stored7; newer7])
    = stored "7" (@upserts runtime c [stored7; newer7; newest7])
  ∧ stored "7" (@upserts runtime c [newest7; stored7; newer7]) = Some newest7.
Proof.
  intros page c.
  assert (Hperm : [stored7; newer7; newest7] ≡ₚ [newest7; stored7; newer7]).
  { symmetry. apply (Permutation_cons_append [stored7; newer7] newest7). }
  split; [exact Hperm |]. split; [| reflexivity].
  apply (@upsert_order_is_immaterial runtime page [] "7" _ _ Hperm).
  - repeat (constructor; [by eexists |]). constructor.
  - intros a b t Ha Hb Hta Htb.
    apply list_elem_of_In in Ha, Hb. simpl in Ha, Hb.
    destruct Ha as [<- | [<- | [<- | []]]], Hb as [<- | [<- | [<- | []]]];
      try reflexivity; vm_compute in Hta, Htb; congruence.
Defined.
